(** * NodeWrapper and TokenWrapper of AutomatonBuilderGUI

    A shallow embedding of [src/src/NodeWrapper.ts] and
    [src/src/TokenWrapper.ts].

    - Konva positions are numbers; they are modelled as rationals [Q]
      ([Math.round] is [Qfloor (q + 1/2)], the rounding of JS on ties).
    - Every JS object the code shares ([this], the entries of
      [StateManager.selectedObjects], the tentative-transition target) is a
      reference into a heap [gmap nat NodeWrapper]; [===] on nodes is
      equality of references.
    - The global [StateManager] singleton is one [World] record threaded
      through an option-state monad; [None] is a thrown [TypeError]
      (e.g. reading [this.nodeGroup] before [createKonvaObjects]).
    - Each call the code makes into [StateManager] is appended to the
      [calls] log of the world; the few effects of those calls that the
      handlers read back (selection set, tentative transition and its
      target) are modelled from the spec, [StateManager.ts] not being part
      of the sources. *)

From Stdlib Require Import QArith Qround Qabs Lqa.
From stdpp Require Import base list gmap strings.

(* ------------------------------------------------------------------ *)
(** ** Konva values *)

(** [Vector2d] of Konva. *)
Record Vector2d := mkVec { vx : Q; vy : Q }.

Definition origin : Vector2d := mkVec 0 0.

(** Kinds of Konva shapes held in a node's group. *)
Inductive ShapeKind := KCircle | KText.

(** A child of a Konva group: its kind and its [name] list (Konva splits
    the [name] attribute on white space; [.foo] selectors match a child
    whose name list contains [foo]). *)
Record KElem := mkElem { el_kind : ShapeKind; el_names : list string }.

(** The attributes of [nodeBackground] that the code writes. *)
Record Background := mkBg {
  bg_fill : string;
  bg_stroke : string;
  bg_strokeWidth : Q;
  bg_shadowEnabled : bool;
  bg_shadowColor : string;
  bg_shadowOffset : Vector2d;
  bg_shadowOpacity : Q;
  bg_shadowBlur : Q
}.

(** The Konva group [nodeGroup] of a node, with the state of its three
    fixed children ([nodeBackground], [nodeAcceptCircle], [nodeLabel])
    and the list of all its children (the fixed ones carry no name). *)
Record Group := mkGroup {
  g_pos : Vector2d;
  g_draggable : bool;
  g_dragging : bool;
  g_bg : Background;
  g_acceptVisible : bool;
  g_labelText : string;
  g_children : list KElem
}.

(** [StateManager.colorScheme] (only the entries the node reads). *)
Record ColorScheme := mkScheme {
  nodeFill : string;
  nodeStrokeColor : string;
  selectedNodeStrokeColor : string;
  nodeAcceptStrokeColor : string;
  nodeLabelColor : string;
  newConnectionGlowColor : string;
  newConnectionShadowOpacity : Q;
  newConnectionShadowBlur : Q;
  nodeDragDropShadowColor : string;
  nodeDragDropShadowOpacity : Q;
  nodeDragDropShadowBlur : Q
}.

(* ------------------------------------------------------------------ *)
(** ** The NodeWrapper object *)

Record NodeWrapper := mkNode {
  _id : string;
  _labelText : string;
  _isAcceptNode : bool;
  nodeGroup : option Group;          (* undefined until createKonvaObjects *)
  lastPos : option Vector2d;         (* undefined until the first drag *)
  lastSnappedPos : Vector2d
}.

Definition NodeRadius : Q := 30.
Definition SelectedStrokeWidth : Q := 4.
Definition StrokeWidth : Q := 2.

(** [constructor(label, id = null)]; [fresh] is the value [uuidv4()]
    would return. *)
Definition newNodeWrapper (label : string) (id : option string)
    (fresh : string) : NodeWrapper :=
  mkNode (default fresh id) label false None None origin.

(** [get id()] *)
Definition node_id (n : NodeWrapper) : string := _id n.

(** [get labelText()] *)
Definition labelText (n : NodeWrapper) : string := _labelText n.

Inductive Tool := Select | States | Transitions.

#[global] Instance Tool_eq_dec : EqDecision Tool.
Proof. solve_decision. Defined.

(** [SelectableObject]: a node or a transition, by reference. *)
Inductive SelectableObject :=
  | SelNode (r : nat)
  | SelTransition (r : nat).

#[global] Instance SelectableObject_eq_dec : EqDecision SelectableObject.
Proof. solve_decision. Defined.

(** The parts of a transition the node reads: its reference and its end
    points (for [involvesNode]). *)
Record TransitionWrapper := mkTrans {
  t_ref : nat;
  t_source : nat;
  t_dest : nat
}.

(** The tentative transition record of [StateManager]. *)
Record TentativeTransition := mkTentative {
  tt_source : nat;
  tt_head : option (Q * Q)
}.

(** Calls made to collaborators, in the order they are made. *)
Inductive Call :=
  | CSelectObject (o : SelectableObject)
  | CDeselectAllObjects
  | CStartTentativeTransition (r : nat)
  | CUpdateTentativeTransitionHead (px py : Q)
  | CEndTentativeTransition
  | CStartDragStatesOperation (p : Vector2d)
  | CCompleteDragStatesOperation (p : Vector2d)
  | CUpdateStartNodePosition
  | CUpdatePoints (t : nat)
  | CFireMove (r : nat).

Definition isComplete (c : Call) : bool :=
  match c with CCompleteDragStatesOperation _ => true | _ => false end.

Definition isUpdateStartNodePosition (c : Call) : bool :=
  match c with CUpdateStartNodePosition => true | _ => false end.

(** The world: the heap of nodes and the [StateManager] singleton. *)
Record World := mkWorld {
  nodes : gmap nat NodeWrapper;
  currentTool : Tool;
  snapToGridEnabled : bool;
  selectedObjects : list SelectableObject;
  tentativeTransition : option TentativeTransition;
  tentativeTransitionTarget : option nat;
  transitions : list TransitionWrapper;
  colorScheme : ColorScheme;
  calls : list Call
}.

Definition set_nodes (m : gmap nat NodeWrapper) (w : World) : World :=
  mkWorld m (currentTool w) (snapToGridEnabled w) (selectedObjects w)
    (tentativeTransition w) (tentativeTransitionTarget w) (transitions w)
    (colorScheme w) (calls w).

Definition set_selected (l : list SelectableObject) (w : World) : World :=
  mkWorld (nodes w) (currentTool w) (snapToGridEnabled w) l
    (tentativeTransition w) (tentativeTransitionTarget w) (transitions w)
    (colorScheme w) (calls w).

Definition set_tentative (t : option TentativeTransition) (w : World) : World :=
  mkWorld (nodes w) (currentTool w) (snapToGridEnabled w) (selectedObjects w)
    t (tentativeTransitionTarget w) (transitions w) (colorScheme w) (calls w).

Definition set_target (t : option nat) (w : World) : World :=
  mkWorld (nodes w) (currentTool w) (snapToGridEnabled w) (selectedObjects w)
    (tentativeTransition w) t (transitions w) (colorScheme w) (calls w).

Definition log_call (c : Call) (w : World) : World :=
  mkWorld (nodes w) (currentTool w) (snapToGridEnabled w) (selectedObjects w)
    (tentativeTransition w) (tentativeTransitionTarget w) (transitions w)
    (colorScheme w) (calls w ++ [c]).

(* ------------------------------------------------------------------ *)
(** ** The option-state monad *)

Definition M (A : Type) : Type := World -> option (A * World).

#[global] Instance M_ret : MRet M := fun A a w => Some (a, w).
#[global] Instance M_bind : MBind M := fun A B f m w =>
  match m w with
  | Some (a, w') => f a w'
  | None => None
  end.

Definition throw {A} : M A := fun _ => None.
Definition gets {A} (f : World -> A) : M A := fun w => Some (f w, w).
Definition modify (f : World -> World) : M unit := fun w => Some (tt, f w).

(** Calling a collaborator of [StateManager]. *)
Definition emit (c : Call) : M unit := modify (log_call c).

Fixpoint forEach {A} (f : A -> M unit) (l : list A) : M unit :=
  match l with
  | [] => mret tt
  | a :: l' => f a ;; forEach f l'
  end.

(** Dereferencing a node; a dangling reference would be [undefined]. *)
Definition get_node (r : nat) : M NodeWrapper := fun w =>
  match nodes w !! r with
  | Some n => Some (n, w)
  | None => None
  end.

Definition put_node (r : nat) (n : NodeWrapper) : M unit :=
  modify (fun w => set_nodes (<[r := n]> (nodes w)) w).

(** [this.nodeGroup]: throws when the Konva objects were never built. *)
Definition get_group (r : nat) : M Group :=
  n ← get_node r;
  match nodeGroup n with
  | Some g => mret g
  | None => throw
  end.

Definition put_group (r : nat) (g : Group) : M unit :=
  n ← get_node r;
  put_node r (mkNode (_id n) (_labelText n) (_isAcceptNode n) (Some g)
                (lastPos n) (lastSnappedPos n)).

Definition modify_group (r : nat) (f : Group -> Group) : M unit :=
  g ← get_group r; put_group r (f g).

Definition set_lastPos (r : nat) (p : option Vector2d) : M unit :=
  n ← get_node r;
  put_node r (mkNode (_id n) (_labelText n) (_isAcceptNode n) (nodeGroup n)
                p (lastSnappedPos n)).

Definition set_lastSnappedPos (r : nat) (p : Vector2d) : M unit :=
  n ← get_node r;
  put_node r (mkNode (_id n) (_labelText n) (_isAcceptNode n) (nodeGroup n)
                (lastPos n) p).

(** [group.position(p)] *)
Definition with_pos (p : Vector2d) (g : Group) : Group :=
  mkGroup p (g_draggable g) (g_dragging g) (g_bg g) (g_acceptVisible g)
    (g_labelText g) (g_children g).

Definition with_bg (b : Background) (g : Group) : Group :=
  mkGroup (g_pos g) (g_draggable g) (g_dragging g) b (g_acceptVisible g)
    (g_labelText g) (g_children g).

Definition with_children (cs : list KElem) (g : Group) : Group :=
  mkGroup (g_pos g) (g_draggable g) (g_dragging g) (g_bg g)
    (g_acceptVisible g) (g_labelText g) cs.

(** [group.stopDrag()] *)
Definition with_stopped (g : Group) : Group :=
  mkGroup (g_pos g) (g_draggable g) false (g_bg g) (g_acceptVisible g)
    (g_labelText g) (g_children g).

(* ------------------------------------------------------------------ *)
(** ** Math.round and snapToGrid *)

(** [Math.round]: the nearest integer, ties towards +infinity. *)
Definition math_round (q : Q) : Z := Qfloor (q + (1 # 2))%Q.

Definition gridCellSize : Q := 50.

(** [transition.involvesNode(node)] *)
Definition involvesNode (t : TransitionWrapper) (r : nat) : bool :=
  Nat.eqb (t_source t) r || Nat.eqb (t_dest t) r.

(** [setPosition(position)] *)
Definition setPosition (self : nat) (p : Vector2d) : M unit :=
  modify_group self (with_pos p).

(** [snapToGrid()]; the trailing [batchDraw] only repaints. *)
Definition snapToGrid (self : nat) : M Vector2d :=
  g ← get_group self;
  let nodePos := g_pos g in
  let snappedX := (inject_Z (math_round (vx nodePos / gridCellSize)) * gridCellSize)%Q in
  let snappedY := (inject_Z (math_round (vy nodePos / gridCellSize)) * gridCellSize)%Q in
  setPosition self (mkVec snappedX snappedY) ;;
  ts ← gets transitions;
  forEach (fun t => if involvesNode t self then emit (CUpdatePoints (t_ref t))
                    else mret tt) ts ;;
  mret (mkVec snappedX snappedY).

(* ------------------------------------------------------------------ *)
(** ** createKonvaObjects and the visual methods *)

(** [createKonvaObjects(x, y)]; registering the event handlers is the
    dispatch of the handlers below. *)
Definition createKonvaObjects (self : nat) (x y : Q) : M unit :=
  n ← get_node self;
  cs ← gets colorScheme;
  let bg := mkBg (nodeFill cs) (nodeStrokeColor cs) StrokeWidth false
              "" origin 0 0 in
  let g := mkGroup (mkVec x y) true false bg (_isAcceptNode n) (_labelText n)
             [mkElem KCircle []; mkElem KCircle []; mkElem KText []] in
  put_group self g.

Definition modify_bg (self : nat) (f : Background -> Background) : M unit :=
  modify_group self (fun g => with_bg (f (g_bg g)) g).

Definition bg_set_stroke (s : string) (w : Q) (b : Background) : Background :=
  mkBg (bg_fill b) s w (bg_shadowEnabled b) (bg_shadowColor b)
    (bg_shadowOffset b) (bg_shadowOpacity b) (bg_shadowBlur b).

Definition bg_set_fill (f : string) (b : Background) : Background :=
  mkBg f (bg_stroke b) (bg_strokeWidth b) (bg_shadowEnabled b)
    (bg_shadowColor b) (bg_shadowOffset b) (bg_shadowOpacity b)
    (bg_shadowBlur b).

Definition bg_set_shadow (c : string) (o : Vector2d) (op bl : Q)
    (b : Background) : Background :=
  mkBg (bg_fill b) (bg_stroke b) (bg_strokeWidth b) true c o op bl.

Definition bg_set_shadowEnabled (e : bool) (b : Background) : Background :=
  mkBg (bg_fill b) (bg_stroke b) (bg_strokeWidth b) e (bg_shadowColor b)
    (bg_shadowOffset b) (bg_shadowOpacity b) (bg_shadowBlur b).

(** [select()] *)
Definition select (self : nat) : M unit :=
  cs ← gets colorScheme;
  modify_bg self (bg_set_stroke (selectedNodeStrokeColor cs) SelectedStrokeWidth).

(** [deselect()] *)
Definition deselect (self : nat) : M unit :=
  cs ← gets colorScheme;
  modify_bg self (bg_set_stroke (nodeStrokeColor cs) StrokeWidth).

(** [enableNewConnectionGlow()] *)
Definition enableNewConnectionGlow (self : nat) : M unit :=
  cs ← gets colorScheme;
  modify_bg self (bg_set_shadow (newConnectionGlowColor cs) origin
                    (newConnectionShadowOpacity cs) (newConnectionShadowBlur cs)).

(** [disableShadowEffects()] *)
Definition disableShadowEffects (self : nat) : M unit :=
  modify_bg self (bg_set_shadowEnabled false).

(** [enableDragDropShadow()] *)
Definition enableDragDropShadow (self : nat) : M unit :=
  cs ← gets colorScheme;
  modify_bg self (bg_set_shadow (nodeDragDropShadowColor cs) (mkVec 0 3)
                    (nodeDragDropShadowOpacity cs) (nodeDragDropShadowBlur cs)).

(* ------------------------------------------------------------------ *)
(** ** Collaborators of StateManager *)

(** Modelled from the spec: [StateManager.selectObject(obj)] (missing
    from the sources), section 4.2: adds [obj] to the selection set and
    applies the selected visual state; idempotent if already selected. *)
Definition selectObject (o : SelectableObject) : M unit :=
  emit (CSelectObject o) ;;
  sel ← gets selectedObjects;
  if decide (o ∈ sel) then mret tt
  else modify (set_selected (sel ++ [o])) ;;
       match o with SelNode r => select r | SelTransition _ => mret tt end.

(** Modelled from the spec: [StateManager.deselectAllObjects()] (missing
    from the sources), section 4.2: removes every object from the set,
    applying the unselected visual state to each. *)
Definition deselectAllObjects : M unit :=
  emit CDeselectAllObjects ;;
  sel ← gets selectedObjects;
  forEach (fun o => match o with SelNode r => deselect r
                    | SelTransition _ => mret tt end) sel ;;
  modify (set_selected []).

(** Modelled from the spec: [StateManager.startTentativeTransition(node)]
    (missing from the sources), section 4.4: creates the tentative
    transition record with [source = node]. *)
Definition startTentativeTransition (r : nat) : M unit :=
  emit (CStartTentativeTransition r) ;;
  modify (set_tentative (Some (mkTentative r None))).

(** Modelled from the spec: [StateManager.updateTentativeTransitionHead]
    (missing from the sources), section 4.4: the free end point follows
    the pointer's page coordinates. *)
Definition updateTentativeTransitionHead (px py : Q) : M unit :=
  emit (CUpdateTentativeTransitionHead px py) ;;
  t ← gets tentativeTransition;
  match t with
  | Some rec => modify (set_tentative (Some (mkTentative (tt_source rec) (Some (px, py)))))
  | None => mret tt
  end.

(** Modelled from the spec: [StateManager.endTentativeTransition()]
    (missing from the sources), section 4.4: the creation of the
    transition is delegated; the record and its target are cleared
    unconditionally. *)
Definition endTentativeTransition : M unit :=
  emit CEndTentativeTransition ;;
  modify (set_tentative None) ;;
  modify (set_target None).

(** Modelled from the spec: [StateManager.tentativeTransitionInProgress]
    (missing from the sources): a tentative transition record exists. *)
Definition tentativeTransitionInProgress (w : World) : bool :=
  match tentativeTransition w with Some _ => true | None => false end.

(** [startDragStatesOperation], [completeDragStatesOperation] and
    [updateStartNodePosition] act on the operation log and start-node
    arrow of [StateManager]; only their calls are recorded. *)
Definition startDragStatesOperation (p : Vector2d) : M unit :=
  emit (CStartDragStatesOperation p).

Definition completeDragStatesOperation (p : Vector2d) : M unit :=
  emit (CCompleteDragStatesOperation p).

Definition updateStartNodePosition : M unit := emit CUpdateStartNodePosition.

(** [konvaObject().fire('move', ev)]: observers are external. *)
Definition fireMove (r : nat) : M unit := emit (CFireMove r).

(* ------------------------------------------------------------------ *)
(** ** The event handlers of a node *)

(** The fields of [ev] and [ev.evt] the handlers read. *)
Record KonvaMouseEvent := mkEv {
  shiftKey : bool;
  pageX : Q;
  pageY : Q;
  movementX : Q;
  movementY : Q
}.

(** [obj instanceof NodeWrapper] *)
Definition isNodeObj (o : SelectableObject) : bool :=
  match o with SelNode _ => true | SelTransition _ => false end.

(** [onMouseEnter(ev)] *)
Definition onMouseEnter (self : nat) : M unit :=
  tool ← gets currentTool;
  inProgress ← gets tentativeTransitionInProgress;
  if bool_decide (tool = Transitions) && inProgress then
    modify (set_target (Some self)) ;;
    enableNewConnectionGlow self
  else mret tt.

(** [onMouseLeave(ev)] *)
Definition onMouseLeave (self : nat) : M unit :=
  tool ← gets currentTool;
  if bool_decide (tool = Transitions) then
    inProgress ← gets tentativeTransitionInProgress;
    target ← gets tentativeTransitionTarget;
    if inProgress && bool_decide (target = Some self) then
      modify (set_target None) ;;
      disableShadowEffects self
    else mret tt
  else mret tt.

(** [onClick(ev)] *)
Definition onClick (self : nat) (ev : KonvaMouseEvent) : M unit :=
  tool ← gets currentTool;
  if bool_decide (tool = Select) then
    (if negb (shiftKey ev) then deselectAllObjects else mret tt) ;;
    selectObject (SelNode self)
  else mret tt.

(** [onDragStart(ev)]; [p] is the fresh object [this.lastPos]. *)
Definition onDragStart (self : nat) (ev : KonvaMouseEvent) : M unit :=
  g ← get_group self;
  let p := g_pos g in
  set_lastPos self (Some p) ;;
  tool ← gets currentTool;
  if bool_decide (tool = States) then
    modify_group self with_stopped
  else if bool_decide (tool = Transitions) then
    startTentativeTransition self
  else if bool_decide (tool = Select) then
    sel ← gets selectedObjects;
    (if negb (shiftKey ev) && Nat.eqb (length sel) 1
     then deselectAllObjects else mret tt) ;;
    selectObject (SelNode self) ;;
    sel' ← gets selectedObjects;
    forEach (fun o => match o with
                      | SelNode r => enableDragDropShadow r
                      | SelTransition _ => mret tt end) sel' ;;
    startDragStatesOperation p
  else mret tt.

(** [onDragMove(ev)]; [position(undefined)] is Konva's getter. *)
Definition onDragMove (self : nat) (ev : KonvaMouseEvent) : M unit :=
  tool ← gets currentTool;
  if bool_decide (tool = Transitions) then
    n ← get_node self;
    (match lastPos n with
     | Some p => setPosition self p
     | None => g ← get_group self; mret tt
     end) ;;
    updateTentativeTransitionHead (pageX ev) (pageY ev)
  else if bool_decide (tool = Select) then
    fireMove self ;;
    sel ← gets selectedObjects;
    let allOtherSelected := filter (fun o => o ≠ SelNode self) sel in
    forEach (fun o => match o with
                      | SelNode r =>
                          g ← get_group r;
                          setPosition r (mkVec (vx (g_pos g) + movementX ev)%Q
                                               (vy (g_pos g) + movementY ev)%Q) ;;
                          fireMove r
                      | SelTransition _ => mret tt end) allOtherSelected
  else mret tt.

(** [Math.abs(a - b) > 1e-5] *)
Definition farApart (a b : Q) : bool :=
  negb (Qle_bool (Qabs (a - b)) (1 # 100000)).

(** The [nodes.forEach] loop of [onDragEnd]: snaps every node and keeps
    in [snappedPos] the position returned for [this]. *)
Fixpoint snapEach (self : nat) (snappedPos : Vector2d)
    (l : list SelectableObject) : M Vector2d :=
  match l with
  | [] => mret snappedPos
  | SelNode r :: l' =>
      snapped ← snapToGrid r;
      snapEach self (if Nat.eqb r self then snapped else snappedPos) l'
  | SelTransition _ :: l' => snapEach self snappedPos l'
  end.

(** [onDragEnd()] *)
Definition onDragEnd (self : nat) : M unit :=
  tool ← gets currentTool;
  snap ← gets snapToGridEnabled;
  if bool_decide (tool = States) then mret tt
  else if bool_decide (tool = Select) && snap then
    selected ← gets selectedObjects;
    let ns := List.filter isNodeObj selected in
    snappedPos ← snapEach self origin ns;
    updateStartNodePosition ;;
    n ← get_node self;
    let lsp := lastSnappedPos n in
    if farApart (vx lsp) (vx snappedPos) || farApart (vy lsp) (vy snappedPos) then
      set_lastSnappedPos self snappedPos ;;
      g ← get_group self;
      completeDragStatesOperation (g_pos g)
    else mret tt
  else if bool_decide (tool = Transitions) then
    endTentativeTransition
  else if bool_decide (tool = Select) then
    selected ← gets selectedObjects;
    forEach (fun o => match o with
                      | SelNode r => disableShadowEffects r
                      | SelTransition _ => mret tt end) selected ;;
    g ← get_group self;
    completeDragStatesOperation (g_pos g)
  else mret tt.

(** The Konva drag driver around the handlers: [dragstart] marks the
    group as dragging, each pointer move of a dragging group moves it to
    the pointer and fires [dragmove]. *)
Definition with_dragging (g : Group) : Group :=
  mkGroup (g_pos g) (g_draggable g) true (g_bg g) (g_acceptVisible g)
    (g_labelText g) (g_children g).

Definition konvaDragStart (self : nat) (ev : KonvaMouseEvent) : M unit :=
  modify_group self with_dragging ;;
  onDragStart self ev.

Definition konvaDragMove (self : nat) (p : Vector2d) (ev : KonvaMouseEvent) : M unit :=
  g ← get_group self;
  if g_dragging g then setPosition self p ;; onDragMove self ev
  else mret tt.

Fixpoint konvaDragMoves (self : nat) (moves : list (Vector2d * KonvaMouseEvent))
    : M unit :=
  match moves with
  | [] => mret tt
  | (p, ev) :: ms => konvaDragMove self p ev ;; konvaDragMoves self ms
  end.

(* ------------------------------------------------------------------ *)
(** ** setErrorState *)

(** Matched by the selector ['.errorIcon, .errorText']. *)
Definition isErrorElem (e : KElem) : bool :=
  bool_decide ("errorIcon" ∈ el_names e) || bool_decide ("errorText" ∈ el_names e).

Definition errorIcon : KElem := mkElem KCircle ["errorIcon"].
Definition errorText : KElem := mkElem KText ["errorText"].

(** [setErrorState(isError)]; the geometry of the icon and glyph is not
    modelled, and the trailing [batchDraw] only repaints. *)
Definition setErrorState (self : nat) (isError : bool) : M unit :=
  modify_group self (fun g =>
    with_children (List.filter (fun e => negb (isErrorElem e)) (g_children g)) g) ;;
  if isError then
    modify_bg self (bg_set_fill "rgb(254, 226, 225)") ;;
    modify_bg self (bg_set_stroke "rgb(220, 38, 37)" 4) ;;
    modify_group self (fun g => with_children (g_children g ++ [errorIcon]) g) ;;
    modify_group self (fun g => with_children (g_children g ++ [errorText]) g)
  else
    cs ← gets colorScheme;
    modify_bg self (bg_set_fill (nodeFill cs)) ;;
    modify_bg self (bg_set_stroke (nodeStrokeColor cs) StrokeWidth).

(** Number of children of a group carrying a given name. *)
Definition countNamed (nm : string) (g : Group) : nat :=
  length (List.filter (fun e => bool_decide (nm ∈ el_names e)) (g_children g)).

(* ------------------------------------------------------------------ *)
(** ** Serialization *)

(** [SerializableState] *)
Record SerializableState := mkSerState {
  s_id : string; s_x : Q; s_y : Q; s_label : string
}.

(** [toSerializable()] of a node. *)
Definition toSerializable (self : nat) : M SerializableState :=
  n ← get_node self;
  g ← get_group self;
  mret (mkSerState (node_id n) (vx (g_pos g)) (vy (g_pos g)) (labelText n)).

(** Loading a node: [new NodeWrapper(label, id)] stored at reference [r],
    then [createKonvaObjects(x, y)]. *)
Definition deserializeNode (s : SerializableState) (r : nat) (fresh : string)
    : M unit :=
  put_node r (newNodeWrapper (s_label s) (Some (s_id s)) fresh) ;;
  createKonvaObjects r (s_x s) (s_y s).

Module Token.

(** [TokenWrapper] *)
Record TokenWrapper := mkToken { symbol : string; _id : string }.

(** [constructor(symbol = null, id = null)] *)
Definition newTokenWrapper (sym : option string) (id : option string)
    (fresh : string) : TokenWrapper :=
  mkToken (default "" sym) (default fresh id).

(** [SerializableToken] *)
Record SerializableToken := mkSerToken { st_id : string; st_symbol : string }.

(** [toSerializable()] of a token. *)
Definition toSerializable (t : TokenWrapper) : SerializableToken :=
  mkSerToken (_id t) (symbol t).

Definition deserialize (s : SerializableToken) (fresh : string) : TokenWrapper :=
  newTokenWrapper (Some (st_symbol s)) (Some (st_id s)) fresh.

End Token.

(* ------------------------------------------------------------------ *)
(** ** Label, accept state and color scheme *)

(** [NodeRadius * 2 * 0.75], the width of the label box. *)
Definition maxTextWidth : Q := (NodeRadius * 2 * (3 # 4))%Q.

(** [a > b] and [a < b] on numbers. *)
Definition qgt (a b : Q) : bool := negb (Qle_bool a b).
Definition qlt (a b : Q) : bool := negb (Qle_bool b a).

(** The first [while] loop of [adjustFontSize]. [measure label f] is
    [tempText.getClientRect().width] for a Konva text with string [label]
    and font size [f]; [fuel] bounds the iterations. *)
Fixpoint shrinkFont (measure : string -> Z -> Q) (label : string) (fuel : nat)
    (fontSize : Z) (textWidth : Q) : Z :=
  match fuel with
  | O => fontSize
  | S k =>
      if qgt textWidth maxTextWidth && Z.ltb 10 fontSize then
        let fontSize' := (fontSize - 1)%Z in
        shrinkFont measure label k fontSize' (measure label fontSize')
      else fontSize
  end.

(** The second [while] loop of [adjustFontSize]. *)
Fixpoint growFont (measure : string -> Z -> Q) (label : string) (fuel : nat)
    (fontSize : Z) (textWidth : Q) : Z :=
  match fuel with
  | O => fontSize
  | S k =>
      if qlt textWidth maxTextWidth && Z.ltb fontSize 15 then
        let fontSize' := (fontSize + 1)%Z in
        growFont measure label k fontSize' (measure label fontSize')
      else fontSize
  end.

(** [adjustFontSize()]: the font size [nodeLabel] gets, from the one it
    has. [nodeLabel] is created with font size 15 and only this method
    changes it, by steps of 1, so font sizes are integers; the loops then
    run at most [fontSize - 10] and [15 - fontSize] times. *)
Definition adjustFontSize (measure : string -> Z -> Q) (label : string)
    (fontSize : Z) : Z :=
  let textWidth := measure label fontSize in
  if qgt textWidth maxTextWidth && Z.ltb 10 fontSize then
    shrinkFont measure label (Z.to_nat (fontSize - 10)) fontSize textWidth
  else if qlt textWidth maxTextWidth && Z.ltb fontSize 15 then
    growFont measure label (Z.to_nat (15 - fontSize)) fontSize textWidth
  else fontSize.

(** [nodeLabel.text(s)] *)
Definition with_labelText (s : string) (g : Group) : Group :=
  mkGroup (g_pos g) (g_draggable g) (g_dragging g) (g_bg g) (g_acceptVisible g)
    s (g_children g).

(** [nodeAcceptCircle.visible(b)] *)
Definition with_acceptVisible (b : bool) (g : Group) : Group :=
  mkGroup (g_pos g) (g_draggable g) (g_dragging g) (g_bg g) b
    (g_labelText g) (g_children g).

(** [set labelText(value)]. The font size of [nodeLabel] is not part of
    [Group]: the setter takes [nodeLabel.fontSize()] and returns the font
    size [adjustFontSize] sets ([wrap], [align] and [verticalAlign] are
    set to constants). *)
Definition setLabelText (measure : string -> Z -> Q) (self : nat) (value : string)
    (fontSize : Z) : M Z :=
  n ← get_node self;
  put_node self (mkNode (_id n) value (_isAcceptNode n) (nodeGroup n) (lastPos n)
                   (lastSnappedPos n)) ;;
  modify_group self (with_labelText value) ;;
  n' ← get_node self;
  mret (adjustFontSize measure (_labelText n') fontSize).

(** [get isAcceptNode()] *)
Definition isAcceptNode (n : NodeWrapper) : bool := _isAcceptNode n.

(** [set isAcceptNode(value)] *)
Definition setIsAcceptNode (self : nat) (value : bool) : M unit :=
  n ← get_node self;
  put_node self (mkNode (_id n) (_labelText n) value (nodeGroup n) (lastPos n)
                   (lastSnappedPos n)) ;;
  n' ← get_node self;
  if _isAcceptNode n' then modify_group self (with_acceptVisible true)
  else modify_group self (with_acceptVisible false).

(** [toggleAcceptNode()] *)
Definition toggleAcceptNode (self : nat) : M unit :=
  n ← get_node self;
  setIsAcceptNode self (negb (_isAcceptNode n)).

Definition bg_set_strokeColor (s : string) (b : Background) : Background :=
  mkBg (bg_fill b) s (bg_strokeWidth b) (bg_shadowEnabled b) (bg_shadowColor b)
    (bg_shadowOffset b) (bg_shadowOpacity b) (bg_shadowBlur b).

(** [updateColorScheme()]; the stroke of [nodeAcceptCircle] and the fill
    of [nodeLabel] are not part of [Group]. *)
Definition updateColorScheme (self : nat) : M unit :=
  cs ← gets colorScheme;
  modify_bg self (bg_set_fill (nodeFill cs)) ;;
  modify_bg self (bg_set_strokeColor (nodeStrokeColor cs)).

(* ------------------------------------------------------------------ *)
(** ** Sample objects *)

Definition sampleScheme : ColorScheme :=
  mkScheme "white" "black" "#018ED5" "black" "black" "#018ED5" 1 10
    "black" (1 # 5) 5.

(** A group as [createKonvaObjects] builds it, at position [p]. *)
Definition sampleGroup (p : Vector2d) : Group :=
  mkGroup p true false (mkBg "white" "black" StrokeWidth false "" origin 0 0)
    false "state" [mkElem KCircle []; mkElem KCircle []; mkElem KText []].

Definition sampleNode (p : Vector2d) (lsp : Vector2d) : NodeWrapper :=
  mkNode "n1" "state" false (Some (sampleGroup p)) None lsp.

(** Node [1] alone on the canvas and selected. *)
Definition sampleWorld (tool : Tool) (snap : bool) (p lsp : Vector2d) : World :=
  mkWorld {[1 := sampleNode p lsp]} tool snap [SelNode 1] None None []
    sampleScheme [].

(** Node [1] at (73, 124), selected, with transitions [7] (from node 1 to
    node 2), [8] (from 2 to 3) and [9] (from 3 to 1). *)
Definition sampleTransWorld : World :=
  mkWorld {[1 := sampleNode (mkVec 73 124) origin]} Select true [SelNode 1]
    None None [mkTrans 7 1 2; mkTrans 8 2 3; mkTrans 9 3 1] sampleScheme [].

(** A text measure: 4/5 of the font size per character. *)
Definition sampleMeasure (label : string) (f : Z) : Q :=
  (inject_Z (Z.of_nat (String.length label) * f) * (4 # 5))%Q.

(** Nodes [1] and [2] in Transitions mode, a transition being dragged out
    of node [1] with node [tgt] as tracked target. *)
Definition sampleHoverWorld (tgt : option nat) : World :=
  mkWorld {[1 := sampleNode origin origin; 2 := sampleNode (mkVec 100 0) origin]}
    Transitions false [] (Some (mkTentative 1 None)) tgt [] sampleScheme [].

(* ================================================================== *)
(** * Running the monad *)

(** Appending a list of calls to the log. *)
Definition log_calls (cs : list Call) (w : World) : World :=
  mkWorld (nodes w) (currentTool w) (snapToGridEnabled w) (selectedObjects w)
    (tentativeTransition w) (tentativeTransitionTarget w) (transitions w)
    (colorScheme w) (calls w ++ cs).

(** A node with its group replaced. *)
Definition upd_group (n : NodeWrapper) (g : Group) : NodeWrapper :=
  mkNode (_id n) (_labelText n) (_isAcceptNode n) (Some g) (lastPos n)
    (lastSnappedPos n).

(** The position [snapToGrid] computes from a node position. *)
Definition snappedOf (p : Vector2d) : Vector2d :=
  mkVec (inject_Z (math_round (vx p / gridCellSize)) * gridCellSize)%Q
        (inject_Z (math_round (vy p / gridCellSize)) * gridCellSize)%Q.

(** The transitions the snap of node [r] redraws. *)
Definition updatedPoints (ts : list TransitionWrapper) (r : nat) : list Call :=
  concat (map (fun t => if involvesNode t r then [CUpdatePoints (t_ref t)] else []) ts).

Definition upd_lastPos (n : NodeWrapper) (p : option Vector2d) : NodeWrapper :=
  mkNode (_id n) (_labelText n) (_isAcceptNode n) (nodeGroup n) p (lastSnappedPos n).

Definition upd_lastSnappedPos (n : NodeWrapper) (p : Vector2d) : NodeWrapper :=
  mkNode (_id n) (_labelText n) (_isAcceptNode n) (nodeGroup n) (lastPos n) p.

(** The state of a Transitions-mode gesture on [self] started at
    position [p0] in world [w0]. *)
Definition DragInv (self : nat) (w0 : World) (p0 : Vector2d) (w : World) : Prop :=
  currentTool w = Transitions /\
  (exists n g, nodes w !! self = Some n /\ nodeGroup n = Some g /\
     lastPos n = Some p0 /\ g_pos g = p0 /\ g_dragging g = true) /\
  (forall r, r <> self -> nodes w !! r = nodes w0 !! r).

(** A node after [snapToGrid]. *)
Definition snapNode (n : NodeWrapper) : NodeWrapper :=
  match nodeGroup n with
  | Some g => upd_group n (with_pos (snappedOf (g_pos g)) g)
  | None => n
  end.

(** The heap after the [nodes.forEach] loop of [onDragEnd]. *)
Fixpoint snapMap (m : gmap nat NodeWrapper) (l : list SelectableObject)
    : gmap nat NodeWrapper :=
  match l with
  | [] => m
  | SelNode r :: l' => snapMap (alter snapNode r m) l'
  | SelTransition _ :: l' => snapMap m l'
  end.

Definition liveNode (w : World) (r : nat) : Prop :=
  exists n g, nodes w !! r = Some n /\ nodeGroup n = Some g.

Definition isUpdatePoints (c : Call) : bool :=
  match c with CUpdatePoints _ => true | _ => false end.

(** The shadow flag of a node's background. *)
Definition nodeShadow (n : NodeWrapper) : option bool :=
  option_map (fun g => bg_shadowEnabled (g_bg g)) (nodeGroup n).

(** [m] only ever steps from a world to one related to it by [R]. *)
Definition preserves {A} (R : World -> World -> Prop) (m : M A) : Prop :=
  forall w a w', m w = Some (a, w') -> R w w'.

(** What a method of node [self] that calls no [StateManager] method may
    change: the heap entry of [self], the tentative-transition target
    and, through [transition.updatePoints()], the redraw requests. *)
Definition Frame (self : nat) (w w' : World) : Prop :=
  currentTool w' = currentTool w /\ snapToGridEnabled w' = snapToGridEnabled w /\
  selectedObjects w' = selectedObjects w /\
  tentativeTransition w' = tentativeTransition w /\
  transitions w' = transitions w /\ colorScheme w' = colorScheme w /\
  (exists cs, calls w' = calls w ++ cs /\ Forall (fun c => isUpdatePoints c = true) cs) /\
  (forall r, r <> self -> nodes w' !! r = nodes w !! r).

(** The accept circle is shown exactly for accept nodes, and the label
    shows the label text. *)
Definition consistentNode (n : NodeWrapper) : Prop :=
  forall g, nodeGroup n = Some g ->
    g_acceptVisible g = _isAcceptNode n /\ g_labelText g = _labelText n.

Definition Consistent (w : World) : Prop :=
  map_Forall (fun _ n => consistentNode n) (nodes w).

Definition KeepsConsistent (w w' : World) : Prop := Consistent w -> Consistent w'.


(** The group left by [setErrorState(isError)] on group [g]. *)
Definition clearErrors (g : Group) : Group :=
  with_children (List.filter (fun e => negb (isErrorElem e)) (g_children g)) g.

Definition errorStateGroup (cs : ColorScheme) (isError : bool) (g : Group) : Group :=
  let g0 := clearErrors g in
  if isError then
    with_children ((g_children g0 ++ [errorIcon]) ++ [errorText])
      (with_bg (bg_set_stroke "rgb(220, 38, 37)" 4
                  (bg_set_fill "rgb(254, 226, 225)" (g_bg g0))) g0)
  else
    with_bg (bg_set_stroke (nodeStrokeColor cs) StrokeWidth
               (bg_set_fill (nodeFill cs) (g_bg g0))) g0.

(** The group of a node rewritten by [f], if it has one. *)
Definition mapGroup (f : Group -> Group) (n : NodeWrapper) : NodeWrapper :=
  match nodeGroup n with
  | Some g => upd_group n (f g)
  | None => n
  end.

(** The heap after a loop over a selection that rewrites the group of
    every selected node by [f]. *)
Fixpoint groupMap (f : Group -> Group) (m : gmap nat NodeWrapper)
    (l : list SelectableObject) : gmap nat NodeWrapper :=
  match l with
  | [] => m
  | SelNode r :: l' => groupMap f (alter (mapGroup f) r m) l'
  | SelTransition _ :: l' => groupMap f m l'
  end.

(** The node references of a selection, in order. *)
Fixpoint selRefs (l : list SelectableObject) : list nat :=
  match l with
  | [] => []
  | SelNode r :: l' => r :: selRefs l'
  | SelTransition _ :: l' => selRefs l'
  end.


(** A group whose background shadow is switched off. *)
Definition shadowOff (g : Group) : Group := with_bg (bg_set_shadowEnabled false (g_bg g)) g.

(** A group with the unselected stroke of color scheme [cs]. *)
Definition deselectGroup (cs : ColorScheme) (g : Group) : Group :=
  with_bg (bg_set_stroke (nodeStrokeColor cs) StrokeWidth (g_bg g)) g.

(** Nodes [1] at (73, 124) and [2] at (100, 0), both selected, in Select
    mode with snapping off. *)
Definition sampleDragWorld : World :=
  mkWorld {[1 := sampleNode (mkVec 73 124) origin; 2 := sampleNode (mkVec 100 0) origin]}
    Select false [SelNode 1; SelNode 2] None None [] sampleScheme [].

Lemma bind_ok {A B} (m : M A) (f : A -> M B) w a w' :
  m w = Some (a, w') -> (m ≫= f) w = f a w'.
Proof. intros H. unfold mbind, M_bind. rewrite H. reflexivity. Qed.

Lemma bind_fail {A B} (m : M A) (f : A -> M B) w :
  m w = None -> (m ≫= f) w = None.
Proof. intros H. unfold mbind, M_bind. rewrite H. reflexivity. Qed.

Lemma get_node_ok w r n :
  nodes w !! r = Some n -> get_node r w = Some (n, w).
Proof. intros H. unfold get_node. rewrite H. reflexivity. Qed.

Lemma get_group_ok w r n g :
  nodes w !! r = Some n -> nodeGroup n = Some g -> get_group r w = Some (g, w).
Proof.
  intros H Hg. unfold get_group. rewrite (bind_ok _ _ _ _ _ (get_node_ok _ _ _ H)).
  rewrite Hg. reflexivity.
Qed.

Lemma put_group_ok w r n g :
  nodes w !! r = Some n ->
  put_group r g w = Some (tt, set_nodes (<[r := upd_group n g]> (nodes w)) w).
Proof.
  intros H. unfold put_group. rewrite (bind_ok _ _ _ _ _ (get_node_ok _ _ _ H)).
  reflexivity.
Qed.

Lemma modify_group_ok w r n g f :
  nodes w !! r = Some n -> nodeGroup n = Some g ->
  modify_group r f w =
    Some (tt, set_nodes (<[r := upd_group n (f g)]> (nodes w)) w).
Proof.
  intros H Hg. unfold modify_group.
  rewrite (bind_ok _ _ _ _ _ (get_group_ok _ _ _ _ H Hg)).
  apply put_group_ok; exact H.
Qed.

(** A loop whose body only calls collaborators that merely log. *)
Lemma forEach_logs {A} (body : A -> M unit) (f : A -> list Call) (l : list A) w :
  (forall a w0, body a w0 = Some (tt, log_calls (f a) w0)) ->
  forEach body l w = Some (tt, log_calls (concat (map f l)) w).
Proof.
  intros Hb. revert w. induction l as [|a l IH]; intros w; simpl.
  - destruct w; unfold log_calls; simpl. rewrite app_nil_r. reflexivity.
  - rewrite (bind_ok _ _ _ _ _ (Hb a w)). rewrite IH.
    destruct w; unfold log_calls; simpl. rewrite app_assoc. reflexivity.
Qed.

Lemma log_calls_nodes cs w : nodes (log_calls cs w) = nodes w.
Proof. reflexivity. Qed.

Lemma set_nodes_nodes m w : nodes (set_nodes m w) = m.
Proof. reflexivity. Qed.

Lemma snapToGrid_run w self n g :
  nodes w !! self = Some n -> nodeGroup n = Some g ->
  snapToGrid self w =
    Some (snappedOf (g_pos g),
          log_calls (updatedPoints (transitions w) self)
            (set_nodes (<[self := upd_group n (with_pos (snappedOf (g_pos g)) g)]>
                          (nodes w)) w)).
Proof.
  intros H Hg. unfold snapToGrid.
  rewrite (bind_ok _ _ _ _ _ (get_group_ok _ _ _ _ H Hg)).
  unfold setPosition.
  rewrite (bind_ok _ _ _ _ _ (modify_group_ok _ _ _ _ _ H Hg)).
  unfold gets. unfold mbind at 1, M_bind at 1. cbv beta iota.
  assert (Hloop : forall (t : TransitionWrapper) w0,
    (if involvesNode t self then emit (CUpdatePoints (t_ref t)) else mret tt) w0 =
    Some (tt, log_calls (if involvesNode t self then [CUpdatePoints (t_ref t)] else []) w0)).
  { intros t w0. destruct (involvesNode t self); [reflexivity|].
    destruct w0; unfold log_calls; simpl. rewrite app_nil_r. reflexivity. }
  rewrite (bind_ok _ _ _ _ _ (forEach_logs _ _ _ _ Hloop)).
  reflexivity.
Qed.

(* ================================================================== *)
(** * Snapping to the grid *)

(** Halfway between two grid lines, [Math.round] goes to the upper one. *)
Lemma math_round_half_grid (k : Z) :
  math_round (inject_Z (50 * k + 25) / gridCellSize) = (k + 1)%Z.
Proof.
  unfold math_round.
  assert (Heq : (inject_Z (50 * k + 25) / gridCellSize + (1 # 2) == inject_Z (k + 1))%Q).
  { unfold Qeq, gridCellSize; simpl. lia. }
  rewrite Heq. apply Qfloor_Z.
Qed.

(** C1: [snapToGrid] moves the node to
    [(round(x / 50) * 50, round(y / 50) * 50)] and returns that position;
    (73, 124) snaps to (50, 100), (76, 126) to (100, 150), and a
    coordinate halfway between two grid lines (75, 125, in general
    [50 k + 25]) goes to the upper line. *)
Theorem snapToGrid_rounds_to_grid :
  (forall (w : World) (self : nat) (n : NodeWrapper) (g : Group),
     nodes w !! self = Some n -> nodeGroup n = Some g ->
     let s := mkVec (inject_Z (math_round (vx (g_pos g) / 50)) * 50)%Q
                    (inject_Z (math_round (vy (g_pos g) / 50)) * 50)%Q in
     exists w', snapToGrid self w = Some (s, w') /\
       exists n' g', nodes w' !! self = Some n' /\ nodeGroup n' = Some g' /\
                     g_pos g' = s) /\
  (forall (w : World) (self : nat) (n : NodeWrapper) (g : Group),
     nodes w !! self = Some n -> nodeGroup n = Some g ->
     (g_pos g = mkVec 73 124 -> option_map fst (snapToGrid self w) = Some (mkVec 50 100)) /\
     (g_pos g = mkVec 76 126 -> option_map fst (snapToGrid self w) = Some (mkVec 100 150)) /\
     (g_pos g = mkVec 75 125 -> option_map fst (snapToGrid self w) = Some (mkVec 100 150))) /\
  (forall k : Z, inject_Z (math_round (inject_Z (50 * k + 25) / 50)) * 50 = inject_Z (50 * (k + 1)))%Q.
Proof.
  split; [|split].
  - intros w self n g H Hg s. eexists. split.
    + exact (snapToGrid_run w self n g H Hg).
    + eexists _, _. rewrite log_calls_nodes, set_nodes_nodes, lookup_insert_eq.
      split; [reflexivity|]. split; reflexivity.
  - intros w self n g H Hg. rewrite (snapToGrid_run w self n g H Hg).
    simpl. repeat split; intros Hp; rewrite Hp; reflexivity.
  - intros k. pose proof (math_round_half_grid k) as Hk. unfold gridCellSize in Hk.
    rewrite Hk. unfold inject_Z, Qmult. simpl. f_equal. lia.
Qed.

Lemma snapToGrid_rounds_to_grid_witness :
  nodes (sampleWorld Select true (mkVec 73 124) origin) !! 1 =
    Some (sampleNode (mkVec 73 124) origin) /\
  nodeGroup (sampleNode (mkVec 73 124) origin) = Some (sampleGroup (mkVec 73 124)) /\
  exists w', snapToGrid 1 (sampleWorld Select true (mkVec 73 124) origin) =
               Some (mkVec 50 100, w').
Proof.
  split; [reflexivity|]. split; [reflexivity|].
  destruct (proj1 snapToGrid_rounds_to_grid
              (sampleWorld Select true (mkVec 73 124) origin) 1
              (sampleNode (mkVec 73 124) origin) (sampleGroup (mkVec 73 124))
              eq_refl eq_refl) as [w' [Hrun _]].
  exists w'. exact Hrun.
Defined.

(* ================================================================== *)
(** * Stepping through handlers *)

Lemma modify_group_k {B} w r n g f (k : unit -> M B) :
  nodes w !! r = Some n -> nodeGroup n = Some g ->
  (modify_group r f ≫= k) w =
    k tt (set_nodes (<[r := upd_group n (f g)]> (nodes w)) w).
Proof. intros H Hg. apply bind_ok. apply modify_group_ok; assumption. Qed.

Lemma upd_group_lookup w r n g :
  nodes (set_nodes (<[r := upd_group n g]> (nodes w)) w) !! r = Some (upd_group n g) /\
  nodeGroup (upd_group n g) = Some g.
Proof. split; [apply lookup_insert_eq | reflexivity]. Qed.

Lemma gets_k {A B} (f : World -> A) (k : A -> M B) w :
  (gets f ≫= k) w = k (f w) w.
Proof. reflexivity. Qed.

Lemma set_lastPos_k {B} w r n p (k : unit -> M B) :
  nodes w !! r = Some n ->
  (set_lastPos r p ≫= k) w =
    k tt (set_nodes (<[r := upd_lastPos n p]> (nodes w)) w).
Proof.
  intros H. apply bind_ok. unfold set_lastPos.
  rewrite (bind_ok _ _ _ _ _ (get_node_ok _ _ _ H)). reflexivity.
Qed.

Lemma set_lastSnappedPos_k {B} w r n p (k : unit -> M B) :
  nodes w !! r = Some n ->
  (set_lastSnappedPos r p ≫= k) w =
    k tt (set_nodes (<[r := upd_lastSnappedPos n p]> (nodes w)) w).
Proof.
  intros H. apply bind_ok. unfold set_lastSnappedPos.
  rewrite (bind_ok _ _ _ _ _ (get_node_ok _ _ _ H)). reflexivity.
Qed.

Lemma get_group_k {B} w r n g (k : Group -> M B) :
  nodes w !! r = Some n -> nodeGroup n = Some g ->
  (get_group r ≫= k) w = k g w.
Proof. intros H Hg. apply bind_ok. apply (get_group_ok _ _ _ _ H Hg). Qed.

Lemma get_node_k {B} w r n (k : NodeWrapper -> M B) :
  nodes w !! r = Some n -> (get_node r ≫= k) w = k n w.
Proof. intros H. apply bind_ok. apply (get_node_ok _ _ _ H). Qed.

Lemma put_node_k {B} w r n (k : unit -> M B) :
  (put_node r n ≫= k) w = k tt (set_nodes (<[r := n]> (nodes w)) w).
Proof. reflexivity. Qed.

Lemma modify_k {B} f (k : unit -> M B) w :
  (modify f ≫= k) w = k tt (f w).
Proof. reflexivity. Qed.

Lemma emit_k {B} c (k : unit -> M B) w :
  (emit c ≫= k) w = k tt (log_call c w).
Proof. reflexivity. Qed.

(** One step of a handler that rewrites the group of a live node; the
    facts about the node are looked up up to conversion. *)
Ltac step_group :=
  match goal with
  | |- context [ (modify_group ?r ?f ≫= ?k) ?w ] =>
    match goal with
    | H : nodes _ !! r = Some ?n, Hg : nodeGroup ?n = Some ?g |- _ =>
      let Hw := fresh "Hw" in
      assert (Hw : nodes w !! r = Some n) by exact H;
      rewrite (modify_group_k w r n g f k Hw Hg); clear Hw H Hg;
      let H' := fresh "H" in let Hg' := fresh "Hg" in
      destruct (upd_group_lookup w r n (f g)) as [H' Hg']
    end
  | |- context [ modify_group ?r ?f ?w ] =>
    match goal with
    | H : nodes _ !! r = Some ?n, Hg : nodeGroup ?n = Some ?g |- _ =>
      let Hw := fresh "Hw" in
      assert (Hw : nodes w !! r = Some n) by exact H;
      rewrite (modify_group_ok w r n g f Hw Hg); clear Hw H Hg;
      let H' := fresh "H" in let Hg' := fresh "Hg" in
      destruct (upd_group_lookup w r n (f g)) as [H' Hg']
    end
  end.

Lemma filter_app_count (P : KElem -> bool) (l1 l2 : list KElem) :
  length (List.filter P (l1 ++ l2)) = length (List.filter P l1) + length (List.filter P l2).
Proof. rewrite List.filter_app, length_app. reflexivity. Qed.

Lemma count_after_cleanup (nm : string) (l : list KElem) :
  nm = "errorIcon" \/ nm = "errorText" ->
  length (List.filter (fun e => bool_decide (nm ∈ el_names e))
                 (List.filter (fun e => negb (isErrorElem e)) l)) = 0.
Proof.
  intros Hnm. induction l as [|e l IH]; [reflexivity|].
  cbn [List.filter]. destruct (isErrorElem e) eqn:E; cbn [negb List.filter].
  - exact IH.
  - unfold isErrorElem in E. apply orb_false_iff in E as [E1 E2].
    apply bool_decide_eq_false_1 in E1. apply bool_decide_eq_false_1 in E2.
    rewrite bool_decide_eq_false_2; [exact IH|].
    destruct Hnm; subst; assumption.
Qed.

(** C6: whatever the children of the group before the call,
    [setErrorState b] leaves exactly one error icon and one error glyph
    when [b] is true and none when it is false; in particular there is
    never more than one of each after any call of a sequence, and two
    calls [setErrorState(true)] in a row leave exactly one pair. *)
Theorem setErrorState_single_overlay :
  (forall (w : World) (self : nat) (n : NodeWrapper) (g : Group) (isError : bool),
     nodes w !! self = Some n -> nodeGroup n = Some g ->
     exists w' n' g', setErrorState self isError w = Some (tt, w') /\
       nodes w' !! self = Some n' /\ nodeGroup n' = Some g' /\
       countNamed "errorIcon" g' = (if isError then 1 else 0) /\
       countNamed "errorText" g' = (if isError then 1 else 0)) /\
  (forall (w : World) (self : nat) (n : NodeWrapper) (g : Group),
     nodes w !! self = Some n -> nodeGroup n = Some g ->
     exists w' n' g', (setErrorState self true ;; setErrorState self true) w = Some (tt, w') /\
       nodes w' !! self = Some n' /\ nodeGroup n' = Some g' /\
       countNamed "errorIcon" g' = 1 /\ countNamed "errorText" g' = 1).
Proof.
  assert (One : forall (w : World) (self : nat) (n : NodeWrapper) (g : Group) (isError : bool),
     nodes w !! self = Some n -> nodeGroup n = Some g ->
     exists w' n' g', setErrorState self isError w = Some (tt, w') /\
       nodes w' !! self = Some n' /\ nodeGroup n' = Some g' /\
       countNamed "errorIcon" g' = (if isError then 1 else 0) /\
       countNamed "errorText" g' = (if isError then 1 else 0)).
  { intros w self n g isError H Hg. unfold setErrorState.
    step_group. destruct isError.
    - unfold modify_bg. do 3 step_group. step_group.
      do 3 eexists. split; [reflexivity|]. split; [eassumption|].
      split; [eassumption|]. unfold countNamed; simpl.
      rewrite !filter_app_count, !count_after_cleanup by auto. split; reflexivity.
    - rewrite gets_k. unfold modify_bg. step_group. step_group.
      do 3 eexists. split; [reflexivity|]. split; [eassumption|].
      split; [eassumption|]. unfold countNamed; simpl.
      rewrite !count_after_cleanup by auto. split; reflexivity. }
  split; [exact One|].
  intros w self n g H Hg.
  destruct (One w self n g true H Hg) as (w1 & n1 & g1 & R1 & H1 & Hg1 & _).
  destruct (One w1 self n1 g1 true H1 Hg1) as (w2 & n2 & g2 & R2 & H2 & Hg2 & C1 & C2).
  exists w2, n2, g2. rewrite (bind_ok _ _ _ _ _ R1). auto.
Qed.

Lemma setErrorState_single_overlay_witness :
  exists w' n' g',
    (setErrorState 1 true ;; setErrorState 1 true)
      (sampleWorld Select true (mkVec 73 124) origin) = Some (tt, w') /\
    nodes w' !! 1 = Some n' /\ nodeGroup n' = Some g' /\
    countNamed "errorIcon" g' = 1 /\ countNamed "errorText" g' = 1.
Proof.
  exact (proj2 setErrorState_single_overlay
           (sampleWorld Select true (mkVec 73 124) origin) 1
           (sampleNode (mkVec 73 124) origin) (sampleGroup (mkVec 73 124))
           eq_refl eq_refl).
Defined.

(* ================================================================== *)
(** * Hover in Transitions mode *)

(** C8: in Transitions mode with a tentative transition in progress, a
    mouse leave on the tracked target clears the target and removes its
    glow, and a mouse leave on any other node changes nothing. *)
Theorem onMouseLeave_only_tracked_target (w : World) (self : nat)
    (n : NodeWrapper) (g : Group) :
  currentTool w = Transitions -> tentativeTransitionInProgress w = true ->
  nodes w !! self = Some n -> nodeGroup n = Some g ->
  (tentativeTransitionTarget w = Some self ->
     exists w' n' g', onMouseLeave self w = Some (tt, w') /\
       tentativeTransitionTarget w' = None /\
       nodes w' !! self = Some n' /\ nodeGroup n' = Some g' /\
       bg_shadowEnabled (g_bg g') = false /\
       tentativeTransition w' = tentativeTransition w /\
       selectedObjects w' = selectedObjects w /\ calls w' = calls w) /\
  (tentativeTransitionTarget w <> Some self ->
     onMouseLeave self w = Some (tt, w)).
Proof.
  intros Htool Hprog H Hg. split.
  - intros Htgt. unfold onMouseLeave. rewrite gets_k, Htool.
    cbn [bool_decide decide_rel Tool_eq_dec].
    rewrite bool_decide_eq_true_2 by reflexivity.
    rewrite !gets_k, Hprog, Htgt.
    rewrite bool_decide_eq_true_2 by reflexivity. cbn [andb].
    rewrite modify_k.
    unfold disableShadowEffects, modify_bg. step_group.
    do 3 eexists. split; [reflexivity|]. split; [reflexivity|].
    split; [eassumption|]. split; [eassumption|]. simpl. auto.
  - intros Htgt. unfold onMouseLeave. rewrite gets_k, Htool.
    rewrite bool_decide_eq_true_2 by reflexivity.
    rewrite !gets_k, Hprog.
    rewrite bool_decide_eq_false_2 by exact Htgt. reflexivity.
Qed.

Lemma onMouseLeave_only_tracked_target_witness :
  onMouseLeave 2 (sampleHoverWorld (Some 1)) = Some (tt, sampleHoverWorld (Some 1)).
Proof.
  apply (proj2 (onMouseLeave_only_tracked_target (sampleHoverWorld (Some 1)) 2
                  (sampleNode (mkVec 100 0) origin) (sampleGroup (mkVec 100 0))
                  eq_refl eq_refl eq_refl eq_refl)).
  discriminate.
Defined.

(* ================================================================== *)
(** * Dragging in States mode *)

(** C9: in States mode a drag start only records [lastPos] and stops the
    drag of the node's group: the selection set, the tentative
    transition, its target and the calls to collaborators are untouched,
    no other node changes; the drag end does nothing at all. *)
Theorem states_mode_drag_inert (w : World) (self : nat) (n : NodeWrapper)
    (g : Group) (ev : KonvaMouseEvent) :
  currentTool w = States ->
  nodes w !! self = Some n -> nodeGroup n = Some g ->
  (exists w' n' g', onDragStart self ev w = Some (tt, w') /\
     selectedObjects w' = selectedObjects w /\
     tentativeTransition w' = tentativeTransition w /\
     tentativeTransitionTarget w' = tentativeTransitionTarget w /\
     calls w' = calls w /\ currentTool w' = currentTool w /\
     nodes w' !! self = Some n' /\ nodeGroup n' = Some g' /\
     g_dragging g' = false /\ g_pos g' = g_pos g /\ lastPos n' = Some (g_pos g) /\
     (forall r, r <> self -> nodes w' !! r = nodes w !! r)) /\
  onDragEnd self w = Some (tt, w).
Proof.
  intros Htool H Hg. split.
  - unfold onDragStart.
    rewrite (get_group_k _ _ _ _ _ H Hg).
    rewrite (set_lastPos_k _ _ _ _ _ H).
    rewrite gets_k. cbn [set_nodes currentTool]. rewrite Htool.
    rewrite bool_decide_eq_true_2 by reflexivity.
    assert (H1 : nodes (set_nodes (<[self := upd_lastPos n (Some (g_pos g))]> (nodes w)) w)
                   !! self = Some (upd_lastPos n (Some (g_pos g)))) by apply lookup_insert_eq.
    assert (Hg1 : nodeGroup (upd_lastPos n (Some (g_pos g))) = Some g)
      by (simpl; exact Hg).
    rewrite (modify_group_ok _ _ _ _ _ H1 Hg1).
    do 3 eexists. split; [reflexivity|]. cbn [set_nodes selectedObjects
      tentativeTransition tentativeTransitionTarget calls currentTool nodes].
    do 5 (split; [first [reflexivity | exact Htool]|]).
    split; [apply lookup_insert_eq|]. split; [reflexivity|].
    split; [reflexivity|]. split; [reflexivity|]. split; [reflexivity|].
    intros r Hr. rewrite !lookup_insert_ne by congruence. reflexivity.
  - unfold onDragEnd. rewrite !gets_k, Htool.
    rewrite bool_decide_eq_true_2 by reflexivity. reflexivity.
Qed.

Lemma states_mode_drag_inert_witness :
  onDragEnd 1 (sampleWorld States false (mkVec 73 124) origin) =
    Some (tt, sampleWorld States false (mkVec 73 124) origin).
Proof.
  apply (proj2 (states_mode_drag_inert (sampleWorld States false (mkVec 73 124) origin) 1
                  (sampleNode (mkVec 73 124) origin) (sampleGroup (mkVec 73 124))
                  (mkEv false 0 0 0 0) eq_refl eq_refl eq_refl)).
Defined.

(* ================================================================== *)
(** * Dragging in Transitions mode *)

Section TransitionsDrag.

Variable self : nat.
Variable w0 : World.
Variable p0 : Vector2d.

Lemma konvaDragMove_inv (w : World) (p : Vector2d) (ev : KonvaMouseEvent) (h : option (Q * Q)) :
  DragInv self w0 p0 w -> tentativeTransition w = Some (mkTentative self h) ->
  exists w', konvaDragMove self p ev w = Some (tt, w') /\ DragInv self w0 p0 w' /\
    tentativeTransition w' = Some (mkTentative self (Some (pageX ev, pageY ev))).
Proof.
  intros (Htool & (n & g & H & Hg & Hlp & Hpos & Hdr) & Hoth) Ht.
  unfold konvaDragMove.
  rewrite (get_group_k _ _ _ _ _ H Hg), Hdr.
  unfold setPosition at 1. step_group.
  unfold onDragMove. rewrite gets_k. cbn [currentTool set_nodes]. rewrite Htool.
  rewrite bool_decide_eq_true_2 by reflexivity.
  match goal with H1 : nodes _ !! self = Some ?n1 |- _ => rewrite (get_node_k _ _ _ _ H1) end.
  cbn [lastPos upd_group]. rewrite Hlp.
  unfold setPosition. step_group.
  unfold updateTentativeTransitionHead. rewrite emit_k, gets_k.
  cbn [tentativeTransition log_call set_nodes]. rewrite Ht.
  eexists. split; [reflexivity|]. split; [|reflexivity].
  split; [exact Htool|]. split.
  - do 2 eexists. split; [exact (lookup_insert_eq _ _ _)|].
    split; [reflexivity|]. simpl. auto.
  - intros r Hr. cbn [set_tentative log_call set_nodes nodes].
    rewrite !lookup_insert_ne by congruence. auto.
Qed.

Lemma konvaDragMoves_inv (moves : list (Vector2d * KonvaMouseEvent)) :
  forall (w : World) (h : option (Q * Q)),
  DragInv self w0 p0 w -> tentativeTransition w = Some (mkTentative self h) ->
  exists w', konvaDragMoves self moves w = Some (tt, w') /\ DragInv self w0 p0 w' /\
    tentativeTransition w' =
      Some (mkTentative self (match last moves with
                              | Some (_, ev) => Some (pageX ev, pageY ev)
                              | None => h end)).
Proof.
  induction moves as [|[p ev] ms IH]; intros w h Hinv Ht.
  - exists w. auto.
  - destruct (konvaDragMove_inv w p ev h Hinv Ht) as (w1 & R1 & Hinv1 & Ht1).
    destruct (IH w1 _ Hinv1 Ht1) as (w2 & R2 & Hinv2 & Ht2).
    exists w2. simpl. rewrite (bind_ok _ _ _ _ _ R1). split; [exact R2|].
    split; [exact Hinv2|]. rewrite Ht2. destruct ms as [|m ms'].
    + reflexivity.
    + simpl. destruct (last (m :: ms')) as [[]|] eqn:E; [reflexivity|].
      apply last_None in E. discriminate.
Qed.

End TransitionsDrag.

(** C7: in Transitions mode, after the drag start and any sequence of
    drag-move events (hence after each of them), the node is back at the
    position it had at drag start and no other node moved; the tentative
    transition from this node has its free end at the page coordinates of
    the last pointer event. *)
Theorem transitions_drag_pins_node (w : World) (self : nat) (n : NodeWrapper)
    (g : Group) (ev0 : KonvaMouseEvent) (moves : list (Vector2d * KonvaMouseEvent)) :
  currentTool w = Transitions ->
  nodes w !! self = Some n -> nodeGroup n = Some g ->
  exists w', (konvaDragStart self ev0 ;; konvaDragMoves self moves) w = Some (tt, w') /\
    (exists n' g', nodes w' !! self = Some n' /\ nodeGroup n' = Some g' /\
                   g_pos g' = g_pos g) /\
    (forall r, r <> self -> nodes w' !! r = nodes w !! r) /\
    tentativeTransition w' =
      Some (mkTentative self (match last moves with
                              | Some (_, ev) => Some (pageX ev, pageY ev)
                              | None => None end)).
Proof.
  intros Htool H Hg.
  unfold konvaDragStart. unfold mbind at 1, M_bind at 1.
  step_group. unfold onDragStart.
  match goal with H1 : nodes _ !! self = Some ?n1, Hg1 : nodeGroup ?n1 = Some ?g1 |- _ =>
    rewrite (get_group_k _ _ _ _ _ H1 Hg1); rewrite (set_lastPos_k _ _ _ _ _ H1) end.
  rewrite gets_k. cbn [currentTool set_nodes]. rewrite Htool.
  rewrite bool_decide_eq_false_2 by discriminate.
  rewrite bool_decide_eq_true_2 by reflexivity.
  unfold startTentativeTransition. rewrite emit_k. unfold modify at 1.
  cbv beta iota.
  set (w1 := set_tentative _ _).
  assert (Hinv : DragInv self w (g_pos g) w1).
  { split; [exact Htool|]. split.
    - do 2 eexists. split; [exact (lookup_insert_eq _ _ _)|].
      split; [reflexivity|]. simpl. auto.
    - intros r Hr. unfold w1. cbn [set_tentative log_call set_nodes nodes].
      rewrite !lookup_insert_ne by congruence. reflexivity. }
  destruct (konvaDragMoves_inv self w (g_pos g) moves w1 None Hinv eq_refl)
    as (w2 & R2 & (_ & (n2 & g2 & H2 & Hg2 & _ & Hp2 & _) & Hoth) & Ht2).
  exists w2. split; [exact R2|]. split; [eauto|]. split; [exact Hoth|exact Ht2].
Qed.

Lemma transitions_drag_pins_node_witness :
  exists w', (konvaDragStart 1 (mkEv false 0 0 0 0) ;;
              konvaDragMoves 1 [(mkVec 90 90, mkEv false 140 160 10 10)])
               (sampleWorld Transitions false (mkVec 50 50) origin) = Some (tt, w') /\
    (exists n' g', nodes w' !! 1 = Some n' /\ nodeGroup n' = Some g' /\
                   g_pos g' = mkVec 50 50) /\
    (forall r, r <> 1 -> nodes w' !! r = nodes (sampleWorld Transitions false (mkVec 50 50) origin) !! r) /\
    tentativeTransition w' = Some (mkTentative 1 (Some (140, 160)%Q)).
Proof.
  exact (transitions_drag_pins_node (sampleWorld Transitions false (mkVec 50 50) origin) 1
           (sampleNode (mkVec 50 50) origin) (sampleGroup (mkVec 50 50))
           (mkEv false 0 0 0 0) [(mkVec 90 90, mkEv false 140 160 10 10)]
           eq_refl eq_refl eq_refl).
Defined.

(* ================================================================== *)
(** * Serialization *)

Lemma toSerializable_run (w : World) (self : nat) :
  toSerializable self w =
    match nodes w !! self with
    | Some n => match nodeGroup n with
                | Some g => Some (mkSerState (node_id n) (vx (g_pos g)) (vy (g_pos g))
                                    (labelText n), w)
                | None => None
                end
    | None => None
    end.
Proof.
  unfold toSerializable. destruct (nodes w !! self) as [n|] eqn:H.
  - rewrite (get_node_k _ _ _ _ H). destruct (nodeGroup n) as [g|] eqn:Hg.
    + rewrite (get_group_k _ _ _ _ _ H Hg). reflexivity.
    + apply bind_fail. unfold get_group. rewrite (get_node_k _ _ _ _ H), Hg. reflexivity.
  - apply bind_fail. unfold get_node. rewrite H. reflexivity.
Qed.

Lemma deserializeNode_run (w : World) (s : SerializableState) (r : nat) (fresh : string) :
  exists w1 n1 g1, deserializeNode s r fresh w = Some (tt, w1) /\
    nodes w1 !! r = Some n1 /\ nodeGroup n1 = Some g1 /\
    node_id n1 = s_id s /\ labelText n1 = s_label s /\ g_pos g1 = mkVec (s_x s) (s_y s).
Proof.
  unfold deserializeNode. rewrite put_node_k.
  unfold createKonvaObjects.
  rewrite (get_node_k _ _ _ _ (lookup_insert_eq _ _ _)), gets_k.
  unfold put_group. rewrite (get_node_k _ _ _ _ (lookup_insert_eq _ _ _)).
  do 3 eexists. split; [reflexivity|]. split; [apply lookup_insert_eq|].
  repeat split.
Qed.

(** C5: [toSerializable] of a node returns the world unchanged; a node
    rebuilt from its serialized form ([new NodeWrapper(label, id)] then
    [createKonvaObjects(x, y)]) serializes to the same object; a token
    rebuilt with the same id and symbol serializes to the same object. *)
Theorem toSerializable_roundtrip :
  (forall (w w' : World) (self : nat) (s : SerializableState),
     toSerializable self w = Some (s, w') -> w' = w) /\
  (forall (w w' : World) (self r : nat) (s : SerializableState) (fresh : string),
     toSerializable self w = Some (s, w') ->
     exists w'', (deserializeNode s r fresh ;; toSerializable r) w' = Some (s, w'')) /\
  (forall (t : Token.TokenWrapper) (fresh : string),
     Token.toSerializable (Token.deserialize (Token.toSerializable t) fresh) =
       Token.toSerializable t).
Proof.
  split; [|split].
  - intros w w' self s. rewrite toSerializable_run.
    destruct (nodes w !! self) as [n|]; [|discriminate].
    destruct (nodeGroup n) as [g|]; [|discriminate].
    intros E. inversion E. reflexivity.
  - intros w w' self r s fresh. rewrite toSerializable_run.
    destruct (nodes w !! self) as [n|]; [|discriminate].
    destruct (nodeGroup n) as [g|]; [|discriminate].
    intros E. inversion E; subst. clear E.
    destruct (deserializeNode_run w' (mkSerState (node_id n) (vx (g_pos g)) (vy (g_pos g))
                (labelText n)) r fresh) as (w1 & n1 & g1 & R1 & H1 & Hg1 & Hid & Hlab & Hpos).
    rewrite (bind_ok _ _ _ _ _ R1), toSerializable_run, H1, Hg1, Hid, Hlab, Hpos.
    eexists. reflexivity.
  - intros [sym id] fresh. reflexivity.
Qed.

Lemma toSerializable_roundtrip_witness :
  exists w'', (deserializeNode (mkSerState "n1" 73 124 "state") 5 "fresh" ;; toSerializable 5)
                (sampleWorld Select true (mkVec 73 124) origin) =
              Some (mkSerState "n1" 73 124 "state", w'').
Proof.
  exact (proj1 (proj2 toSerializable_roundtrip)
           (sampleWorld Select true (mkVec 73 124) origin)
           (sampleWorld Select true (mkVec 73 124) origin) 1 5
           (mkSerState "n1" 73 124 "state") "fresh" eq_refl).
Defined.

(* ================================================================== *)
(** * Ending a drag in Select mode with snapping *)

Lemma math_round_grid (k : Z) :
  math_round (inject_Z k * gridCellSize / gridCellSize) = k.
Proof.
  unfold math_round, gridCellSize, Qfloor. simpl.
  symmetry. apply Z.div_unique with 50%Z; lia.
Qed.

Lemma snappedOf_idem (p : Vector2d) : snappedOf (snappedOf p) = snappedOf p.
Proof. unfold snappedOf. simpl. rewrite !math_round_grid. reflexivity. Qed.

Lemma snapNode_idem (n : NodeWrapper) : snapNode (snapNode n) = snapNode n.
Proof.
  unfold snapNode. destruct (nodeGroup n) as [g|] eqn:Hg; [|rewrite Hg; reflexivity].
  simpl. rewrite snappedOf_idem. reflexivity.
Qed.

Lemma log_set_compose cs1 cs2 m1 m2 w :
  log_calls cs2 (set_nodes m2 (log_calls cs1 (set_nodes m1 w))) =
  log_calls (cs1 ++ cs2) (set_nodes m2 w).
Proof. destruct w. unfold log_calls, set_nodes. simpl. rewrite app_assoc. reflexivity. Qed.

Lemma updatedPoints_only ts r : Forall (fun c => isUpdatePoints c = true) (updatedPoints ts r).
Proof.
  unfold updatedPoints. induction ts as [|t ts IH]; simpl; [constructor|].
  destruct (involvesNode t r); simpl; [constructor; [reflexivity|]|]; exact IH.
Qed.

Lemma snapEach_run (self : nat) (l : list SelectableObject) :
  forall (w : World) (acc : Vector2d),
  (forall r, SelNode r ∈ l -> liveNode w r) ->
  exists res cs, snapEach self acc l w =
      Some (res, log_calls cs (set_nodes (snapMap (nodes w) l) w)) /\
    Forall (fun c => isUpdatePoints c = true) cs /\
    (forall n g, nodes w !! self = Some n -> nodeGroup n = Some g ->
       res = if bool_decide (SelNode self ∈ l) then snappedOf (g_pos g) else acc).
Proof.
  induction l as [|o l IH]; intros w acc Hlive.
  - exists acc, []. split.
    + destruct w; unfold log_calls, set_nodes; simpl. rewrite app_nil_r. reflexivity.
    + split; [constructor|]. intros. rewrite bool_decide_eq_false_2; [reflexivity|].
      apply not_elem_of_nil.
  - destruct o as [r|r].
    + destruct (Hlive r (list_elem_of_here _ _)) as (n & g & H & Hg).
      simpl. rewrite (bind_ok _ _ _ _ _ (snapToGrid_run w r n g H Hg)).
      set (w1 := log_calls _ _).
      assert (Hlive1 : forall q, SelNode q ∈ l -> liveNode w1 q).
      { intros q Hq. destruct (Hlive q (list_elem_of_further _ _ _ Hq)) as (nq & gq & Hq1 & Hgq).
        unfold liveNode, w1. rewrite log_calls_nodes, set_nodes_nodes.
        destruct (decide (q = r)) as [->|Hne].
        - rewrite lookup_insert_eq. do 2 eexists. split; [reflexivity|reflexivity].
        - rewrite lookup_insert_ne by congruence. eauto. }
      destruct (IH w1 (if Nat.eqb r self then snappedOf (g_pos g) else acc) Hlive1)
        as (res & cs & R & Hcs & Hres).
      exists res, (updatedPoints (transitions w) r ++ cs). split; [|split].
      * rewrite R. unfold w1. rewrite log_set_compose. do 3 f_equal.
        rewrite log_calls_nodes, set_nodes_nodes. simpl.
        apply (f_equal (fun m => set_nodes (snapMap m l) w)). apply map_eq. intros i. destruct (decide (i = r)) as [->|Hne].
        -- rewrite lookup_insert_eq, lookup_alter_eq, H. simpl.
           unfold snapNode. rewrite Hg. reflexivity.
        -- rewrite lookup_insert_ne, lookup_alter_ne by congruence. reflexivity.
      * apply Forall_app. split; [apply updatedPoints_only|exact Hcs].
      * intros n' g' Hs Hgs. 
        destruct (Nat.eqb_spec r self) as [->|Hne].
        -- rewrite H in Hs. inversion Hs; subst n'. rewrite Hg in Hgs. inversion Hgs; subst g'.
           rewrite bool_decide_eq_true_2 by apply list_elem_of_here.
           assert (Hs1 : nodes w1 !! self = Some (upd_group n (with_pos (snappedOf (g_pos g)) g)))
             by (unfold w1; rewrite log_calls_nodes, set_nodes_nodes; apply lookup_insert_eq).
           rewrite (Hres _ _ Hs1 eq_refl). simpl.
           destruct (bool_decide (SelNode self ∈ l)); [apply snappedOf_idem|reflexivity].
        -- assert (Hs1 : nodes w1 !! self = Some n')
             by (unfold w1; rewrite log_calls_nodes, set_nodes_nodes, lookup_insert_ne by congruence;
                 exact Hs).
           rewrite (Hres _ _ Hs1 Hgs).
           destruct (decide (SelNode self ∈ l)) as [Hin|Hnin].
           ++ rewrite !bool_decide_eq_true_2 by (try apply list_elem_of_further; exact Hin).
              reflexivity.
           ++ rewrite !bool_decide_eq_false_2; [reflexivity| |exact Hnin].
              intros Hin. apply elem_of_cons in Hin as [E|E]; [congruence|contradiction].
    + simpl.
      assert (Hlive1 : forall q, SelNode q ∈ l -> liveNode w q)
        by (intros q Hq; apply Hlive; apply list_elem_of_further; exact Hq).
      destruct (IH w acc Hlive1) as (res & cs & R & Hcs & Hres).
      exists res, cs. split; [exact R|]. split; [exact Hcs|].
      intros n g Hs Hgs. rewrite (Hres n g Hs Hgs).
      destruct (decide (SelNode self ∈ l)) as [Hin|Hnin].
      * rewrite !bool_decide_eq_true_2 by (try apply list_elem_of_further; exact Hin).
        reflexivity.
      * rewrite !bool_decide_eq_false_2; [reflexivity| |exact Hnin].
        intros Hin. apply elem_of_cons in Hin as [E|E]; [congruence|contradiction].
Qed.

Lemma snapMap_lookup (l : list SelectableObject) :
  forall (m : gmap nat NodeWrapper) (q : nat),
  snapMap m l !! q = if bool_decide (SelNode q ∈ l) then snapNode <$> m !! q else m !! q.
Proof.
  induction l as [|[r|r] l IH]; intros m q; cbn [snapMap].
  - rewrite bool_decide_eq_false_2; [reflexivity|apply not_elem_of_nil].
  - rewrite IH. destruct (decide (q = r)) as [->|Hne].
    + rewrite lookup_alter_eq.
      rewrite (bool_decide_eq_true_2 (SelNode r ∈ SelNode r :: l)) by apply list_elem_of_here.
      destruct (bool_decide (SelNode r ∈ l)); [|reflexivity].
      destruct (m !! r); simpl; [rewrite snapNode_idem|]; reflexivity.
    + rewrite lookup_alter_ne by congruence.
      destruct (decide (SelNode q ∈ l)) as [Hin|Hnin].
      * rewrite !bool_decide_eq_true_2 by (try apply list_elem_of_further; exact Hin).
        reflexivity.
      * rewrite !bool_decide_eq_false_2; [reflexivity| |exact Hnin].
        intros Hin. apply elem_of_cons in Hin as [E|E]; [congruence|contradiction].
  - rewrite IH. destruct (decide (SelNode q ∈ l)) as [Hin|Hnin].
    + rewrite !bool_decide_eq_true_2 by (try apply list_elem_of_further; exact Hin).
      reflexivity.
    + rewrite !bool_decide_eq_false_2; [reflexivity| |exact Hnin].
      intros Hin. apply elem_of_cons in Hin as [E|E]; [congruence|contradiction].
Qed.

Lemma nodeShadow_snapNode (n : NodeWrapper) : nodeShadow (snapNode n) = nodeShadow n.
Proof. unfold snapNode, nodeShadow. destruct (nodeGroup n) eqn:Hg; simpl; rewrite ?Hg; reflexivity. Qed.

Lemma filter_nodes_elem (l : list SelectableObject) (r : nat) :
  SelNode r ∈ List.filter isNodeObj l <-> SelNode r ∈ l.
Proof.
  induction l as [|o l IH]; simpl; [reflexivity|].
  destruct o as [q|q]; simpl; rewrite !elem_of_cons, IH.
  - reflexivity.
  - split; [auto|]. intros [E|E]; [discriminate|exact E].
Qed.

(** What [onDragEnd] does in Select mode with snapping on: every selected
    node is snapped (only transition redraws are requested meanwhile),
    the start node collaborator is notified, and the move is committed
    exactly when the snapped position of [this] is more than [1e-5] away
    from its [lastSnappedPos] on some axis, which then becomes that
    position; no shadow is touched. *)
Lemma onDragEnd_snap_run (w : World) (self : nat) (n : NodeWrapper) (g : Group) :
  currentTool w = Select -> snapToGridEnabled w = true ->
  nodes w !! self = Some n -> nodeGroup n = Some g ->
  SelNode self ∈ selectedObjects w ->
  (forall r, SelNode r ∈ selectedObjects w -> liveNode w r) ->
  exists cs w', onDragEnd self w = Some (tt, w') /\
    Forall (fun c => isUpdatePoints c = true) cs /\
    calls w' = calls w ++ cs ++ CUpdateStartNodePosition ::
      (if farApart (vx (lastSnappedPos n)) (vx (snappedOf (g_pos g))) ||
          farApart (vy (lastSnappedPos n)) (vy (snappedOf (g_pos g)))
       then [CCompleteDragStatesOperation (snappedOf (g_pos g))] else []) /\
    (exists n', nodes w' !! self = Some n' /\
       lastSnappedPos n' =
         (if farApart (vx (lastSnappedPos n)) (vx (snappedOf (g_pos g))) ||
             farApart (vy (lastSnappedPos n)) (vy (snappedOf (g_pos g)))
          then snappedOf (g_pos g) else lastSnappedPos n)) /\
    (forall q, option_map nodeShadow (nodes w' !! q) = option_map nodeShadow (nodes w !! q)).
Proof.
  intros Htool Hsnap H Hg Hsel Hlive.
  unfold onDragEnd. rewrite !gets_k, Htool, Hsnap.
  rewrite bool_decide_eq_false_2 by discriminate.
  rewrite bool_decide_eq_true_2 by reflexivity. cbn [andb].
  rewrite gets_k. cbv zeta.
  assert (Hlive' : forall r, SelNode r ∈ List.filter isNodeObj (selectedObjects w) -> liveNode w r)
    by (intros r Hr; apply Hlive; apply filter_nodes_elem; exact Hr).
  assert (Hself : SelNode self ∈ List.filter isNodeObj (selectedObjects w))
    by (apply filter_nodes_elem; exact Hsel).
  destruct (snapEach_run self _ w origin Hlive') as (res & cs & R & Hcs & Hres).
  specialize (Hres n g H Hg). rewrite bool_decide_eq_true_2 in Hres by exact Hself.
  subst res.
  rewrite (bind_ok _ _ _ _ _ R). unfold updateStartNodePosition. rewrite emit_k.
  set (m := snapMap (nodes w) (List.filter isNodeObj (selectedObjects w))).
  assert (Hm : forall q, m !! q =
            if bool_decide (SelNode q ∈ List.filter isNodeObj (selectedObjects w))
            then snapNode <$> nodes w !! q else nodes w !! q) by (intros q; apply snapMap_lookup).
  assert (Hms : m !! self = Some (snapNode n))
    by (rewrite Hm, bool_decide_eq_true_2 by exact Hself; rewrite H; reflexivity).
  assert (Hsh : forall q, option_map nodeShadow (m !! q) = option_map nodeShadow (nodes w !! q)).
  { intros q. rewrite Hm. destruct (bool_decide _); [|reflexivity].
    destruct (nodes w !! q); simpl; [rewrite nodeShadow_snapNode|]; reflexivity. }
  set (w2 := log_call CUpdateStartNodePosition (log_calls cs (set_nodes m w))).
  assert (H2 : nodes w2 !! self = Some (snapNode n)) by exact Hms.
  rewrite (get_node_k _ _ _ _ H2). cbv zeta.
  assert (Hlsp : lastSnappedPos (snapNode n) = lastSnappedPos n)
    by (unfold snapNode; rewrite Hg; reflexivity).
  rewrite Hlsp.
  destruct (farApart (vx (lastSnappedPos n)) (vx (snappedOf (g_pos g))) ||
            farApart (vy (lastSnappedPos n)) (vy (snappedOf (g_pos g)))).
  - rewrite (set_lastSnappedPos_k _ _ _ _ _ H2).
    set (n3 := upd_lastSnappedPos (snapNode n) (snappedOf (g_pos g))).
    assert (H3 : nodes (set_nodes (<[self := n3]> (nodes w2)) w2) !! self = Some n3)
      by apply lookup_insert_eq.
    assert (Hg3 : nodeGroup n3 = Some (with_pos (snappedOf (g_pos g)) g))
      by (unfold n3, snapNode; rewrite Hg; reflexivity).
    rewrite (get_group_k _ _ _ _ _ H3 Hg3).
    exists cs. eexists. split; [reflexivity|]. split; [exact Hcs|]. split.
    + cbn. rewrite <- !app_assoc. reflexivity.
    + split.
      * exists n3. split; [exact H3|reflexivity].
      * intros q. cbn [log_call log_calls set_nodes nodes].
        destruct (decide (q = self)) as [->|Hne].
        -- rewrite lookup_insert_eq, H. simpl. unfold n3, nodeShadow, snapNode.
           rewrite Hg. reflexivity.
        -- rewrite lookup_insert_ne by congruence. apply Hsh.
  - exists cs. eexists. split; [reflexivity|]. split; [exact Hcs|]. split.
    + cbn. rewrite <- !app_assoc. reflexivity.
    + split.
      * exists (snapNode n). split; [exact H2|exact Hlsp].
      * intros q. apply Hsh.
Qed.

Lemma farApart_refl (a : Q) : farApart a a = false.
Proof.
  unfold farApart.
  assert (E : Qle_bool (Qabs (a - a)) (1 # 100000) = true).
  { apply Qle_bool_iff. rewrite (Qabs_wd _ 0) by (unfold Qminus; apply Qplus_opp_r).
    unfold Qle; simpl; lia. }
  rewrite E. reflexivity.
Qed.

Lemma farApart_origin_grid (k : Z) :
  farApart 0 (inject_Z k * gridCellSize) = negb (Z.eqb k 0).
Proof.
  unfold farApart, Qle_bool, Qabs, Qminus, Qplus, Qopp, Qmult, gridCellSize, inject_Z. simpl.
  destruct (Z.eqb_spec k 0) as [->|Hk]; [reflexivity|].
  simpl. rewrite (proj2 (Z.leb_gt _ _)); [reflexivity|]. lia.
Qed.

Lemma snappedOf_origin (p : Vector2d) :
  snappedOf p = origin <->
    math_round (vx p / gridCellSize) = 0%Z /\ math_round (vy p / gridCellSize) = 0%Z.
Proof.
  unfold snappedOf, origin, gridCellSize, inject_Z, Qmult. simpl. split.
  - intros E. inversion E. lia.
  - intros [E1 E2]. rewrite E1, E2. reflexivity.
Qed.

Lemma existsb_complete_tail (cs : list Call) (b : bool) (p : Vector2d) :
  Forall (fun c => isUpdatePoints c = true) cs ->
  existsb isComplete (cs ++ CUpdateStartNodePosition ::
                        (if b then [CCompleteDragStatesOperation p] else [])) = b.
Proof.
  intros Hcs. rewrite existsb_app. simpl.
  assert (E : existsb isComplete cs = false).
  { induction Hcs as [|c cs Hc _ IH]; [reflexivity|].
    simpl. rewrite IH. destruct c; try discriminate; reflexivity. }
  rewrite E. destruct b; reflexivity.
Qed.

(** C4 as it fails: a node created at the grid point (100, 100), selected,
    picked up and released without moving, with snapping on: the drag
    end commits a move to the operation log. *)
Lemma grid_point_drag_end_commits :
  exists w', (konvaDragStart 1 (mkEv false 100 100 0 0) ;; onDragEnd 1)
               (sampleWorld Select true (mkVec 100 100) origin) = Some (tt, w') /\
    calls w' = [CDeselectAllObjects; CSelectObject (SelNode 1);
                CStartDragStatesOperation (mkVec 100 100);
                CUpdateStartNodePosition;
                CCompleteDragStatesOperation (mkVec 100 100)].
Proof. eexists. split; vm_compute; reflexivity. Qed.

(** C4 (amended): [snapToGrid] leaves a node that is on a grid point where
    it is and returns that position; a Select-mode drag end with snapping
    commits the move exactly when the snapped position of the dragged
    node is more than [1e-5] away on some axis from its [lastSnappedPos],
    so it commits nothing when the node ends on the grid point it was last
    snapped to. *)
Theorem snap_commit_iff_moved_from_last_snap :
  (forall (w : World) (self : nat) (n : NodeWrapper) (g : Group) (a b : Z),
     nodes w !! self = Some n -> nodeGroup n = Some g ->
     (vx (g_pos g) == inject_Z (50 * a))%Q -> (vy (g_pos g) == inject_Z (50 * b))%Q ->
     exists s w', snapToGrid self w = Some (s, w') /\
       (vx s == vx (g_pos g))%Q /\ (vy s == vy (g_pos g))%Q /\
       exists n' g', nodes w' !! self = Some n' /\ nodeGroup n' = Some g' /\ g_pos g' = s) /\
  (forall (w : World) (self : nat) (n : NodeWrapper) (g : Group),
     currentTool w = Select -> snapToGridEnabled w = true ->
     nodes w !! self = Some n -> nodeGroup n = Some g ->
     SelNode self ∈ selectedObjects w ->
     (forall r, SelNode r ∈ selectedObjects w -> liveNode w r) ->
     exists w', onDragEnd self w = Some (tt, w') /\
       existsb isComplete (drop (length (calls w)) (calls w')) =
         (farApart (vx (lastSnappedPos n)) (vx (snappedOf (g_pos g))) ||
          farApart (vy (lastSnappedPos n)) (vy (snappedOf (g_pos g)))) /\
       (snappedOf (g_pos g) = lastSnappedPos n ->
          existsb isComplete (drop (length (calls w)) (calls w')) = false)).
Proof.
  split.
  - intros w self n g a b H Hg Ha Hb.
    exists (snappedOf (g_pos g)). eexists. split; [exact (snapToGrid_run w self n g H Hg)|].
    assert (Ra : math_round (vx (g_pos g) / gridCellSize) = a).
    { unfold math_round. rewrite <- (math_round_grid a). unfold math_round.
      apply Qfloor_comp. revert Ha. destruct (vx (g_pos g)) as [xn xd].
      unfold Qeq, gridCellSize; simpl. nia. }
    assert (Rb : math_round (vy (g_pos g) / gridCellSize) = b).
    { unfold math_round. rewrite <- (math_round_grid b). unfold math_round.
      apply Qfloor_comp. revert Hb. destruct (vy (g_pos g)) as [xn xd].
      unfold Qeq, gridCellSize; simpl. nia. }
    unfold snappedOf. simpl. rewrite Ra, Rb. split; [|split].
    + revert Ha. destruct (vx (g_pos g)) as [xn xd].
      unfold Qeq, gridCellSize; simpl. nia.
    + revert Hb. destruct (vy (g_pos g)) as [xn xd].
      unfold Qeq, gridCellSize; simpl. nia.
    + do 2 eexists. split; [apply lookup_insert_eq|].
      split; reflexivity.
  - intros w self n g Htool Hsnap H Hg Hsel Hlive.
    destruct (onDragEnd_snap_run w self n g Htool Hsnap H Hg Hsel Hlive)
      as (cs & w' & R & Hcs & Hcalls & _ & _).
    exists w'. split; [exact R|].
    rewrite Hcalls, drop_app_length, existsb_complete_tail by exact Hcs.
    split; [reflexivity|].
    intros E. rewrite <- E, !farApart_refl. reflexivity.
Qed.

Lemma snap_commit_iff_moved_from_last_snap_witness :
  exists w', onDragEnd 1 (sampleWorld Select true (mkVec 110 90) (mkVec 100 100)) = Some (tt, w') /\
    existsb isComplete (drop 0 (calls w')) = false.
Proof.
  destruct (proj2 snap_commit_iff_moved_from_last_snap
              (sampleWorld Select true (mkVec 110 90) (mkVec 100 100)) 1
              (sampleNode (mkVec 110 90) (mkVec 100 100)) (sampleGroup (mkVec 110 90))
              eq_refl eq_refl eq_refl eq_refl (list_elem_of_here _ _))
    as (w' & R & _ & Hno).
  - intros r Hr. apply list_elem_of_singleton in Hr. inversion Hr; subst.
    do 2 eexists. split; reflexivity.
  - exists w'. split; [exact R|]. apply Hno. vm_compute. reflexivity.
Defined.

(** C10: a new node has [lastSnappedPos = (0, 0)]; so as long as it
    keeps that value (its first committed snapping drag end in Select
    mode), a drag end with snapping commits the move exactly when the
    snapped position is not the origin, wherever the drag started. *)
Theorem first_snap_drag_commits_off_origin :
  (forall (label : string) (id : option string) (fresh : string),
     lastSnappedPos (newNodeWrapper label id fresh) = origin) /\
  (forall (w : World) (self : nat) (n : NodeWrapper) (g : Group),
     currentTool w = Select -> snapToGridEnabled w = true ->
     nodes w !! self = Some n -> nodeGroup n = Some g ->
     SelNode self ∈ selectedObjects w ->
     (forall r, SelNode r ∈ selectedObjects w -> liveNode w r) ->
     lastSnappedPos n = origin ->
     exists w', onDragEnd self w = Some (tt, w') /\
       (existsb isComplete (drop (length (calls w)) (calls w')) = true <->
        snappedOf (g_pos g) <> origin)).
Proof.
  split; [reflexivity|].
  intros w self n g Htool Hsnap H Hg Hsel Hlive Horig.
  destruct (onDragEnd_snap_run w self n g Htool Hsnap H Hg Hsel Hlive)
    as (cs & w' & R & Hcs & Hcalls & _ & _).
  exists w'. split; [exact R|].
  rewrite Hcalls, drop_app_length, existsb_complete_tail by exact Hcs.
  rewrite Horig. unfold snappedOf at 1 2. cbn [vx vy origin].
  rewrite !farApart_origin_grid, snappedOf_origin.
  destruct (Z.eqb_spec (math_round (vx (g_pos g) / gridCellSize)) 0);
  destruct (Z.eqb_spec (math_round (vy (g_pos g) / gridCellSize)) 0);
  simpl; intuition congruence.
Qed.

Lemma first_snap_drag_commits_off_origin_witness :
  exists w', onDragEnd 1 (sampleWorld Select true (mkVec 20 (-10)) origin) = Some (tt, w') /\
    existsb isComplete (drop 0 (calls w')) = false.
Proof.
  destruct (proj2 first_snap_drag_commits_off_origin
              (sampleWorld Select true (mkVec 20 (-10)) origin) 1
              (sampleNode (mkVec 20 (-10)) origin) (sampleGroup (mkVec 20 (-10)))
              eq_refl eq_refl eq_refl eq_refl (list_elem_of_here _ _))
    as (w' & R & Hiff).
  - intros r Hr. apply list_elem_of_singleton in Hr. inversion Hr; subst.
    do 2 eexists. split; reflexivity.
  - reflexivity.
  - exists w'. split; [exact R|].
    destruct (existsb isComplete (drop 0 (calls w'))) eqn:E; [|reflexivity].
    exfalso. apply (proj1 Hiff E). vm_compute. reflexivity.
Defined.

(* ================================================================== *)
(** * Drag end in Select mode: shadows and the start node *)

(** C2 fails: with snapping on, the drop shadow that the drag start put on
    the selected node is still enabled after the drag end; with snapping
    off the same gesture removes it. *)
Theorem snap_drag_end_keeps_shadow :
  (exists w', (konvaDragStart 1 (mkEv false 73 124 0 0) ;; onDragEnd 1)
                (sampleWorld Select true (mkVec 73 124) origin) = Some (tt, w') /\
     option_map nodeShadow (nodes w' !! 1) = Some (Some true)) /\
  (exists w', (konvaDragStart 1 (mkEv false 73 124 0 0) ;; onDragEnd 1)
                (sampleWorld Select false (mkVec 73 124) origin) = Some (tt, w') /\
     option_map nodeShadow (nodes w' !! 1) = Some (Some false)).
Proof. split; eexists; split; vm_compute; reflexivity. Qed.

(** C3 fails: with snapping off, a Select-mode drag end calls only
    [completeDragStatesOperation], not [updateStartNodePosition]; with
    snapping on it calls [updateStartNodePosition]. *)
Theorem plain_drag_end_skips_start_node_update :
  (exists w', onDragEnd 1 (sampleWorld Select false (mkVec 73 124) origin) = Some (tt, w') /\
     calls w' = [CCompleteDragStatesOperation (mkVec 73 124)] /\
     existsb isUpdateStartNodePosition (calls w') = false) /\
  (exists w', onDragEnd 1 (sampleWorld Select true (mkVec 73 124) origin) = Some (tt, w') /\
     existsb isUpdateStartNodePosition (calls w') = true).
Proof. split; eexists; split; try split; vm_compute; reflexivity. Qed.

(* ================================================================== *)
(** * The font size of the label *)

Lemma qgt_false (a b : Q) : qgt a b = false <-> (a <= b)%Q.
Proof.
  unfold qgt. rewrite <- Qle_bool_iff. destruct (Qle_bool a b); simpl; split; congruence.
Qed.

Lemma qlt_false (a b : Q) : qlt a b = false <-> (b <= a)%Q.
Proof.
  unfold qlt. rewrite <- Qle_bool_iff. destruct (Qle_bool b a); simpl; split; congruence.
Qed.

Lemma qgt_true (a b : Q) : qgt a b = true <-> (b < a)%Q.
Proof.
  unfold qgt. destruct (Qle_bool a b) eqn:E; simpl; split; try congruence.
  - apply Qle_bool_iff in E. intros H. exfalso. exact (Qlt_not_le _ _ H E).
  - intros _. apply Qnot_le_lt. intros H. apply Qle_bool_iff in H. congruence.
Qed.

Lemma qlt_true (a b : Q) : qlt a b = true <-> (a < b)%Q.
Proof. unfold qlt. apply qgt_true. Qed.

Section FontLoops.

Variable measure : string -> Z -> Q.
Variable label : string.

Lemma shrinkFont_spec (k : nat) : forall f : Z,
  (10 <= f)%Z -> (f - 10 <= Z.of_nat k)%Z ->
  let r := shrinkFont measure label k f (measure label f) in
  (10 <= r <= f)%Z /\ (r = 10%Z \/ (measure label r <= maxTextWidth)%Q) /\
  (r < f -> qgt (measure label (r + 1)) maxTextWidth = true)%Z.
Proof.
  induction k as [|k IH]; intros f Hlo Hk; cbn [shrinkFont].
  - assert (f = 10%Z) by lia. subst. split; [lia|]. split; [left; reflexivity|lia].
  - destruct (qgt (measure label f) maxTextWidth) eqn:Eg; destruct (Z.ltb_spec 10 f);
      cbn [andb]; cbv zeta.
    + destruct (IH (f - 1)%Z ltac:(lia) ltac:(lia)) as (Hb & Hfit & Hlast).
      set (r := shrinkFont measure label k (f - 1) (measure label (f - 1))) in *.
      split; [lia|]. split; [exact Hfit|].
      intros Hr. destruct (Z.eq_dec r (f - 1)%Z) as [E|E].
      * rewrite E. assert (E2 : (f - 1 + 1 = f)%Z) by lia. rewrite E2. exact Eg.
      * apply Hlast. lia.
    + split; [lia|]. split; [left; lia|lia].
    + split; [lia|]. split; [right; apply qgt_false; exact Eg|lia].
    + split; [lia|]. split; [left; lia|lia].
Qed.


End FontLoops.

Lemma shrinkFont_step measure label k f tw :
  shrinkFont measure label (S k) f tw =
    if qgt tw maxTextWidth && Z.ltb 10 f
    then shrinkFont measure label k (f - 1)%Z (measure label (f - 1)%Z)
    else f.
Proof. reflexivity. Qed.

Lemma growFont_step measure label k f tw :
  growFont measure label (S k) f tw =
    if qlt tw maxTextWidth && Z.ltb f 15
    then growFont measure label k (f + 1)%Z (measure label (f + 1)%Z)
    else f.
Proof. reflexivity. Qed.

Lemma to_nat_succ (z : Z) : (0 < z)%Z -> Z.to_nat z = S (Z.to_nat (z - 1)).
Proof. intros H. rewrite <- Z2Nat.inj_succ by lia. f_equal. lia. Qed.


Lemma shrink_then_grow (measure : string -> Z -> Q) (label : string) (f : Z) :
  (10 < f <= 15)%Z -> (maxTextWidth < measure label f)%Q ->
  let r := adjustFontSize measure label f in
  (10 < r)%Z -> (measure label r < maxTextWidth)%Q ->
  adjustFontSize measure label r = (r + 1)%Z /\
  (maxTextWidth < measure label (r + 1)%Z)%Q /\
  adjustFontSize measure label (r + 1)%Z = r.
Proof.
  intros Hf Hw r Hr Hfit.
  assert (Hshr : r = shrinkFont measure label (Z.to_nat (f - 10 - 1)) (f - 1)%Z
                       (measure label (f - 1)%Z)).
  { unfold r, adjustFontSize. cbv zeta.
    rewrite (proj2 (qgt_true _ _) Hw), (proj2 (Z.ltb_lt 10 f)) by lia. cbn [andb].
    rewrite (to_nat_succ (f - 10)) by lia. rewrite shrinkFont_step.
    rewrite (proj2 (qgt_true _ _) Hw), (proj2 (Z.ltb_lt 10 f)) by lia. reflexivity. }
  destruct (shrinkFont_spec measure label (Z.to_nat (f - 10 - 1)) (f - 1)%Z
              ltac:(lia) ltac:(lia)) as (Hb & _ & Hlast).
  rewrite <- Hshr in Hb, Hlast.
  assert (Hwide : qgt (measure label (r + 1)%Z) maxTextWidth = true).
  { destruct (Z.eq_dec r (f - 1)%Z) as [E|E].
    - rewrite E. assert (E2 : (f - 1 + 1 = f)%Z) by lia. rewrite E2.
      apply qgt_true. exact Hw.
    - apply Hlast. lia. }
  assert (Hnotwide : qgt (measure label r) maxTextWidth = false)
    by (apply qgt_false; apply Qlt_le_weak; exact Hfit).
  clearbody r. split; [|split].
  - unfold adjustFontSize. cbv zeta. rewrite Hnotwide. cbn [andb].
    rewrite (proj2 (qlt_true _ _) Hfit), (proj2 (Z.ltb_lt r 15)) by lia. cbn [andb].
    rewrite (to_nat_succ (15 - r)) by lia. rewrite growFont_step.
    rewrite (proj2 (qlt_true _ _) Hfit), (proj2 (Z.ltb_lt r 15)) by lia. cbn [andb].
    destruct (Z.to_nat (15 - r - 1)) as [|k]; [reflexivity|].
    rewrite growFont_step.
    assert (Hq : qlt (measure label (r + 1)%Z) maxTextWidth = false).
    { apply qlt_false. apply Qlt_le_weak. apply qgt_true. exact Hwide. }
    rewrite Hq. reflexivity.
  - apply qgt_true. exact Hwide.
  - unfold adjustFontSize. cbv zeta. rewrite Hwide, (proj2 (Z.ltb_lt 10 (r + 1))) by lia.
    cbn [andb]. rewrite (to_nat_succ (r + 1 - 10)) by lia. rewrite shrinkFont_step.
    rewrite Hwide, (proj2 (Z.ltb_lt 10 (r + 1))) by lia. cbn [andb].
    assert (E : (r + 1 - 1 = r)%Z) by lia. rewrite E.
    destruct (Z.to_nat (r + 1 - 10 - 1)) as [|k]; [reflexivity|].
    rewrite shrinkFont_step, Hnotwide. reflexivity.
Qed.

Lemma set_nodes_twice m1 m2 w : set_nodes m2 (set_nodes m1 w) = set_nodes m2 w.
Proof. reflexivity. Qed.

Lemma setLabelText_run (measure : string -> Z -> Q) (w : World) (self : nat)
    (n : NodeWrapper) (g : Group) (v : string) (f : Z) :
  nodes w !! self = Some n -> nodeGroup n = Some g ->
  setLabelText measure self v f w =
    Some (adjustFontSize measure v f,
          set_nodes (<[self := mkNode (_id n) v (_isAcceptNode n)
                                 (Some (with_labelText v g)) (lastPos n)
                                 (lastSnappedPos n)]> (nodes w)) w).
Proof.
  intros H Hg. unfold setLabelText.
  rewrite (get_node_k _ _ _ _ H), put_node_k.
  set (n1 := mkNode (_id n) v _ _ _ _).
  assert (H1 : nodes (set_nodes (<[self := n1]> (nodes w)) w) !! self = Some n1)
    by apply lookup_insert_eq.
  assert (Hg1 : nodeGroup n1 = Some g) by exact Hg.
  rewrite (modify_group_k _ _ _ _ _ _ H1 Hg1).
  rewrite (get_node_k _ _ _ _ (lookup_insert_eq _ _ _)).
  cbn [set_nodes nodes]. rewrite insert_insert_eq. reflexivity.
Qed.

(* ================================================================== *)
(** * What the methods of a node may change *)

Section Preserves.

Context (R : World -> World -> Prop).
Context (R_refl : forall w, R w w).
Context (R_trans : forall w1 w2 w3, R w1 w2 -> R w2 w3 -> R w1 w3).

Lemma preserves_ret {A} (a : A) : preserves R (mret a).
Proof using R_refl R_trans. intros w b w' E. inversion E. apply R_refl. Qed.

Lemma preserves_bind {A B} (m : M A) (f : A -> M B) :
  preserves R m -> (forall a, preserves R (f a)) -> preserves R (m ≫= f).
Proof using R_refl R_trans.
  intros Hm Hf w b w' E. unfold mbind, M_bind in E.
  destruct (m w) as [[a w1]|] eqn:E1; [|discriminate].
  exact (R_trans _ _ _ (Hm _ _ _ E1) (Hf a _ _ _ E)).
Qed.

Lemma preserves_gets {A} (f : World -> A) : preserves R (gets f).
Proof using R_refl R_trans. intros w b w' E. inversion E. apply R_refl. Qed.

Lemma preserves_throw {A} : preserves R (@throw A).
Proof using R_refl R_trans. intros w b w' E. discriminate. Qed.

Lemma preserves_forEach {A} (f : A -> M unit) (l : list A) :
  (forall a, preserves R (f a)) -> preserves R (forEach f l).
Proof using R_refl R_trans.
  intros Hf. induction l as [|a l IH]; simpl.
  - apply preserves_ret.
  - apply preserves_bind; [apply Hf|intros _; exact IH].
Qed.

Lemma preserves_get_node (r : nat) : preserves R (get_node r).
Proof using R_refl R_trans.
  intros w n w' E. unfold get_node in E. destruct (nodes w !! r); [|discriminate].
  inversion E. apply R_refl.
Qed.

Lemma preserves_get_group (r : nat) : preserves R (get_group r).
Proof using R_refl R_trans.
  unfold get_group. apply preserves_bind; [apply preserves_get_node|].
  intros n. destruct (nodeGroup n); [apply preserves_ret|].
  intros w a w' E. discriminate.
Qed.

End Preserves.

(** Going through the binds, the branches and the loops of a method. *)
Ltac preserves_walk R_refl R_trans leaf :=
  repeat first
    [ leaf
    | apply (preserves_bind _ R_refl R_trans); [|intros ?; cbv beta]
    | apply (preserves_ret _ R_refl R_trans)
    | apply (preserves_gets _ R_refl R_trans)
    | apply (preserves_throw _ R_refl R_trans)
    | apply (preserves_forEach _ R_refl R_trans); intros ?
    | apply (preserves_get_node _ R_refl R_trans)
    | apply (preserves_get_group _ R_refl R_trans)
    | progress cbv zeta
    | match goal with
      | |- preserves _ (if ?b then _ else _) => destruct b
      | |- preserves _ (match ?x with _ => _ end) => destruct x
      end ].

Lemma Frame_refl self w : Frame self w w.
Proof.
  repeat split; try reflexivity.
  exists []. rewrite app_nil_r. split; [reflexivity|constructor].
Qed.

Lemma Frame_trans self w1 w2 w3 : Frame self w1 w2 -> Frame self w2 w3 -> Frame self w1 w3.
Proof.
  intros (A1 & B1 & C1 & D1 & E1 & F1 & (cs1 & G1 & G1') & H1)
         (A2 & B2 & C2 & D2 & E2 & F2 & (cs2 & G2 & G2') & H2).
  repeat split; try congruence.
  - exists (cs1 ++ cs2). rewrite G2, G1, app_assoc. split; [reflexivity|].
    apply Forall_app; split; assumption.
  - intros r Hr. rewrite H2, H1 by exact Hr. reflexivity.
Qed.

Lemma frame_put_node self n : preserves (Frame self) (put_node self n).
Proof.
  intros w a w' E. inversion E; subst. repeat split; try reflexivity.
  - exists []. rewrite app_nil_r. split; [reflexivity|constructor].
  - intros r Hr. cbn [set_nodes nodes]. apply lookup_insert_ne. congruence.
Qed.

Ltac frame_put_leaf := apply frame_put_node.

Lemma frame_modify_group self f : preserves (Frame self) (modify_group self f).
Proof.
  unfold modify_group, put_group.
  preserves_walk (Frame_refl self) (Frame_trans self) frame_put_leaf.
Qed.

Lemma frame_emit_updatePoints self t : preserves (Frame self) (emit (CUpdatePoints t)).
Proof.
  intros w a w' E. inversion E; subst. repeat split; try reflexivity.
  exists [CUpdatePoints t]. split; [reflexivity|]. constructor; [reflexivity|constructor].
Qed.

Lemma frame_set_target self t : preserves (Frame self) (modify (set_target t)).
Proof.
  intros w a w' E. inversion E; subst. repeat split; try reflexivity.
  exists []. rewrite app_nil_r. split; [reflexivity|constructor].
Qed.

Ltac frame_leaf :=
  first [ apply frame_modify_group | apply frame_put_node
        | apply frame_emit_updatePoints | apply frame_set_target ].

Ltac frame_walk self :=
  preserves_walk (Frame_refl self) (Frame_trans self) frame_leaf.

(** The methods of a node that call no [StateManager] method ([snapToGrid],
    [setPosition], [setErrorState], the visual methods, the setters,
    [toggleAcceptNode], [updateColorScheme], [createKonvaObjects],
    [toSerializable], and the mouse enter and leave handlers) change no
    node other than [this] and leave the tool, the snap flag, the
    selection, the tentative transition, the transitions and the color
    scheme as they are; the only calls they make are
    [transition.updatePoints()]. *)
Theorem node_methods_stay_local (self : nat) :
  (forall p, preserves (Frame self) (setPosition self p)) /\
  preserves (Frame self) (snapToGrid self) /\
  (forall b, preserves (Frame self) (setErrorState self b)) /\
  preserves (Frame self) (select self) /\
  preserves (Frame self) (deselect self) /\
  preserves (Frame self) (enableNewConnectionGlow self) /\
  preserves (Frame self) (disableShadowEffects self) /\
  preserves (Frame self) (enableDragDropShadow self) /\
  (forall v, preserves (Frame self) (setIsAcceptNode self v)) /\
  preserves (Frame self) (toggleAcceptNode self) /\
  (forall measure v f, preserves (Frame self) (setLabelText measure self v f)) /\
  preserves (Frame self) (updateColorScheme self) /\
  (forall x y, preserves (Frame self) (createKonvaObjects self x y)) /\
  preserves (Frame self) (toSerializable self) /\
  preserves (Frame self) (onMouseEnter self) /\
  preserves (Frame self) (onMouseLeave self).
Proof.
  unfold setPosition, snapToGrid, setErrorState, select, deselect,
    enableNewConnectionGlow, disableShadowEffects, enableDragDropShadow,
    setIsAcceptNode, toggleAcceptNode, setLabelText, updateColorScheme,
    createKonvaObjects, toSerializable, onMouseEnter, onMouseLeave, modify_bg,
    put_group.
  repeat match goal with |- _ /\ _ => split end;
  repeat lazymatch goal with |- preserves _ _ => fail | |- forall _, _ => intro end;
  frame_walk self.
Qed.

Lemma modify_group_inv r f w a w' :
  modify_group r f w = Some (a, w') ->
  exists n g, nodes w !! r = Some n /\ nodeGroup n = Some g /\
    w' = set_nodes (<[r := upd_group n (f g)]> (nodes w)) w.
Proof.
  intros E. destruct (nodes w !! r) as [n|] eqn:H.
  - destruct (nodeGroup n) as [g|] eqn:Hg.
    + rewrite (modify_group_ok _ _ _ _ _ H Hg) in E. inversion E; subst. eauto.
    + unfold modify_group, get_group in E. rewrite bind_fail in E; [discriminate|].
      rewrite (get_node_k _ _ _ _ H), Hg. reflexivity.
  - unfold modify_group, get_group in E. rewrite bind_fail in E; [discriminate|].
    apply bind_fail. unfold get_node. rewrite H. reflexivity.
Qed.

Lemma KeepsConsistent_refl w : KeepsConsistent w w.
Proof. intros H. exact H. Qed.

Lemma KeepsConsistent_trans w1 w2 w3 :
  KeepsConsistent w1 w2 -> KeepsConsistent w2 w3 -> KeepsConsistent w1 w3.
Proof. intros H1 H2 H. exact (H2 (H1 H)). Qed.

Lemma keeps_modify_group r f :
  (forall g, g_acceptVisible (f g) = g_acceptVisible g /\ g_labelText (f g) = g_labelText g) ->
  preserves KeepsConsistent (modify_group r f).
Proof.
  intros Hf w a w' E Hc. destruct (modify_group_inv _ _ _ _ _ E) as (n & g & H & Hg & ->).
  unfold Consistent. cbn [set_nodes nodes]. apply map_Forall_insert_2; [|exact Hc].
  intros g' Hg'. inversion Hg'; subst g'. cbn [_isAcceptNode _labelText upd_group].
  destruct (Hf g) as [E1 E2]. rewrite E1, E2. exact (Hc r n H g Hg).
Qed.

Lemma keeps_modify (f : World -> World) :
  (forall w, nodes (f w) = nodes w) -> preserves KeepsConsistent (modify f).
Proof. intros Hf w a w' E Hc. inversion E; subst. unfold Consistent. rewrite Hf. exact Hc. Qed.

Lemma keeps_emit c : preserves KeepsConsistent (emit c).
Proof. apply keeps_modify. reflexivity. Qed.

(** A node with the same group, accept flag and label. *)

Lemma keeps_set_lastPos r p : preserves KeepsConsistent (set_lastPos r p).
Proof.
  intros w a w' E Hc. unfold set_lastPos in E. destruct (nodes w !! r) as [n0|] eqn:H.
  - rewrite (get_node_k _ _ _ _ H) in E. inversion E; subst.
    unfold Consistent. cbn [set_nodes nodes]. apply map_Forall_insert_2; [|exact Hc].
    exact (Hc r n0 H).
  - rewrite bind_fail in E; [discriminate|]. unfold get_node. rewrite H. reflexivity.
Qed.

Lemma keeps_set_lastSnappedPos r p : preserves KeepsConsistent (set_lastSnappedPos r p).
Proof.
  intros w a w' E Hc. unfold set_lastSnappedPos in E. destruct (nodes w !! r) as [n0|] eqn:H.
  - rewrite (get_node_k _ _ _ _ H) in E. inversion E; subst.
    unfold Consistent. cbn [set_nodes nodes]. apply map_Forall_insert_2; [|exact Hc].
    exact (Hc r n0 H).
  - rewrite bind_fail in E; [discriminate|]. unfold get_node. rewrite H. reflexivity.
Qed.

Lemma setIsAcceptNode_run w self n g v :
  nodes w !! self = Some n -> nodeGroup n = Some g ->
  setIsAcceptNode self v w =
    Some (tt, set_nodes (<[self := mkNode (_id n) (_labelText n) v
                                     (Some (with_acceptVisible v g)) (lastPos n)
                                     (lastSnappedPos n)]> (nodes w)) w).
Proof.
  intros H Hg. unfold setIsAcceptNode.
  rewrite (get_node_k _ _ _ _ H), put_node_k.
  rewrite (get_node_k _ _ _ _ (lookup_insert_eq _ _ _)). cbn [_isAcceptNode].
  set (n1 := mkNode (_id n) (_labelText n) v _ _ _).
  assert (H1 : nodes (set_nodes (<[self := n1]> (nodes w)) w) !! self = Some n1)
    by apply lookup_insert_eq.
  assert (Hg1 : nodeGroup n1 = Some g) by exact Hg.
  destruct v; rewrite (modify_group_ok _ _ _ _ _ H1 Hg1);
    cbn [set_nodes nodes]; rewrite insert_insert_eq; reflexivity.
Qed.

(** The setters and [toggleAcceptNode] fail exactly when the node has no
    Konva objects. *)
Lemma setter_fails w self n :
  nodes w !! self = Some n -> nodeGroup n = None ->
  (forall v, setIsAcceptNode self v w = None) /\
  toggleAcceptNode self w = None /\
  (forall measure v f, setLabelText measure self v f w = None).
Proof.
  intros H Hg. assert (Hv : forall v, setIsAcceptNode self v w = None).
  { intros v. unfold setIsAcceptNode. rewrite (get_node_k _ _ _ _ H), put_node_k.
    rewrite (get_node_k _ _ _ _ (lookup_insert_eq _ _ _)). cbn [_isAcceptNode].
    destruct v; unfold modify_group, get_group; rewrite !bind_fail; try reflexivity;
      rewrite (get_node_k _ _ _ _ (lookup_insert_eq _ _ _)); cbn [nodeGroup]; rewrite Hg;
      reflexivity. }
  split; [exact Hv|]. split.
  - unfold toggleAcceptNode. rewrite (get_node_k _ _ _ _ H). apply Hv.
  - intros measure v f. unfold setLabelText. rewrite (get_node_k _ _ _ _ H), put_node_k.
    apply bind_fail. unfold modify_group, get_group. rewrite !bind_fail; try reflexivity.
    rewrite (get_node_k _ _ _ _ (lookup_insert_eq _ _ _)); cbn [nodeGroup]; rewrite Hg.
    reflexivity.
Qed.


Lemma keeps_setIsAcceptNode self v : preserves KeepsConsistent (setIsAcceptNode self v).
Proof.
  intros w a w' E Hc. destruct (nodes w !! self) as [n|] eqn:H.
  - destruct (nodeGroup n) as [g|] eqn:Hg.
    + rewrite (setIsAcceptNode_run _ _ _ _ _ H Hg) in E. inversion E; subst.
      unfold Consistent. cbn [set_nodes nodes]. apply map_Forall_insert_2; [|exact Hc].
      intros g' Hg'. inversion Hg'; subst. cbn. split; [reflexivity|].
      exact (proj2 (Hc self n H g Hg)).
    + rewrite (proj1 (setter_fails _ _ _ H Hg) v) in E. discriminate.
  - unfold setIsAcceptNode in E. rewrite bind_fail in E; [discriminate|].
    unfold get_node. rewrite H. reflexivity.
Qed.

Lemma keeps_setLabelText measure self v f : preserves KeepsConsistent (setLabelText measure self v f).
Proof.
  intros w a w' E Hc. destruct (nodes w !! self) as [n|] eqn:H.
  - destruct (nodeGroup n) as [g|] eqn:Hg.
    + rewrite (setLabelText_run _ _ _ _ _ _ _ H Hg) in E. inversion E; subst.
      unfold Consistent. cbn [set_nodes nodes]. apply map_Forall_insert_2; [|exact Hc].
      intros g' Hg'. inversion Hg'; subst. cbn. split; [|reflexivity].
      exact (proj1 (Hc self n H g Hg)).
    + rewrite (proj2 (proj2 (setter_fails _ _ _ H Hg)) measure v f) in E. discriminate.
  - unfold setLabelText in E. rewrite bind_fail in E; [discriminate|].
    unfold get_node. rewrite H. reflexivity.
Qed.

Lemma keeps_createKonvaObjects self x y : preserves KeepsConsistent (createKonvaObjects self x y).
Proof.
  intros w a w' E Hc. unfold createKonvaObjects in E. destruct (nodes w !! self) as [n|] eqn:H.
  - rewrite (get_node_k _ _ _ _ H), gets_k in E. unfold put_group in E.
    rewrite (get_node_k _ _ _ _ H) in E. inversion E; subst.
    unfold Consistent. cbn [set_nodes nodes]. apply map_Forall_insert_2; [|exact Hc].
    intros g' Hg'. inversion Hg'; subst. split; reflexivity.
  - rewrite bind_fail in E; [discriminate|]. unfold get_node. rewrite H. reflexivity.
Qed.

Ltac keeps_leaf :=
  first [ apply keeps_modify_group; intros; split; reflexivity
        | apply keeps_emit
        | apply keeps_modify; reflexivity
        | apply keeps_set_lastPos
        | apply keeps_set_lastSnappedPos
        | apply keeps_setIsAcceptNode
        | apply keeps_setLabelText
        | apply keeps_createKonvaObjects ].

Ltac keeps_walk := preserves_walk KeepsConsistent_refl KeepsConsistent_trans keeps_leaf.

Lemma keeps_snapToGrid r : preserves KeepsConsistent (snapToGrid r).
Proof. unfold snapToGrid, setPosition. keeps_walk. Qed.

Lemma keeps_snapEach self (l : list SelectableObject) :
  forall acc, preserves KeepsConsistent (snapEach self acc l).
Proof.
  induction l as [|[r|r] l IH]; intros acc; cbn [snapEach].
  - keeps_walk.
  - apply (preserves_bind _ KeepsConsistent_refl KeepsConsistent_trans);
      [apply keeps_snapToGrid|intros s; apply IH].
  - apply IH.
Qed.

(** An invariant of every node: the accept circle is visible
    exactly for an accept node and the label shows the label text. After
    [createKonvaObjects] the node has it, and every method and event
    handler of any node keeps it for all nodes. *)
Theorem accept_circle_and_label_consistent :
  (forall (w w' : World) (self : nat) (x y : Q),
     createKonvaObjects self x y w = Some (tt, w') ->
     exists n', nodes w' !! self = Some n' /\ consistentNode n') /\
  (forall (self : nat) (x y : Q) (p : Vector2d) (b : bool) (measure : string -> Z -> Q)
          (s : string) (f : Z) (ev : KonvaMouseEvent),
     preserves KeepsConsistent (createKonvaObjects self x y) /\
     preserves KeepsConsistent (setIsAcceptNode self b) /\
     preserves KeepsConsistent (toggleAcceptNode self) /\
     preserves KeepsConsistent (setLabelText measure self s f) /\
     preserves KeepsConsistent (select self) /\
     preserves KeepsConsistent (deselect self) /\
     preserves KeepsConsistent (enableNewConnectionGlow self) /\
     preserves KeepsConsistent (disableShadowEffects self) /\
     preserves KeepsConsistent (enableDragDropShadow self) /\
     preserves KeepsConsistent (setErrorState self b) /\
     preserves KeepsConsistent (setPosition self p) /\
     preserves KeepsConsistent (snapToGrid self) /\
     preserves KeepsConsistent (updateColorScheme self) /\
     preserves KeepsConsistent (toSerializable self) /\
     preserves KeepsConsistent (onMouseEnter self) /\
     preserves KeepsConsistent (onMouseLeave self) /\
     preserves KeepsConsistent (onClick self ev) /\
     preserves KeepsConsistent (onDragStart self ev) /\
     preserves KeepsConsistent (onDragMove self ev) /\
     preserves KeepsConsistent (onDragEnd self)).
Proof.
  split.
  - intros w w' self x y E. unfold createKonvaObjects in E.
    destruct (nodes w !! self) as [n|] eqn:H.
    + rewrite (get_node_k _ _ _ _ H), gets_k in E. unfold put_group in E.
      rewrite (get_node_k _ _ _ _ H) in E. inversion E; subst.
      eexists. split; [apply lookup_insert_eq|].
      intros g' Hg'. inversion Hg'; subst. split; reflexivity.
    + rewrite bind_fail in E; [discriminate|]. unfold get_node. rewrite H. reflexivity.
  - intros self x y p b measure s f ev.
    repeat match goal with |- _ /\ _ => split end;
    unfold toggleAcceptNode, select, deselect, enableNewConnectionGlow,
      disableShadowEffects, enableDragDropShadow, setErrorState, setPosition,
      updateColorScheme, toSerializable, onMouseEnter, onMouseLeave, onClick,
      onDragStart, onDragMove, onDragEnd, modify_bg, selectObject,
      deselectAllObjects, startTentativeTransition, updateTentativeTransitionHead,
      endTentativeTransition, startDragStatesOperation, completeDragStatesOperation,
      updateStartNodePosition, fireMove, select, deselect, setPosition;
    try keeps_walk;
    first [apply keeps_snapToGrid | apply keeps_snapEach | keeps_walk].
Qed.

(* ================================================================== *)
(** * The accept state *)

Lemma set_nodes_self w : set_nodes (nodes w) w = w.
Proof. destruct w. reflexivity. Qed.

(** [set isAcceptNode(v)] makes the node accepting exactly when [v] and
    shows the accept circle exactly then, changing nothing else in the
    node; [toggleAcceptNode] flips the flag, and toggling twice gives back
    the world one started from when the circle was shown exactly for an
    accept node. *)
Theorem accept_toggle_roundtrip (w : World) (self : nat) (n : NodeWrapper) (g : Group) :
  nodes w !! self = Some n -> nodeGroup n = Some g ->
  (forall v, setIsAcceptNode self v w =
     Some (tt, set_nodes (<[self := mkNode (_id n) (_labelText n) v
                                      (Some (with_acceptVisible v g)) (lastPos n)
                                      (lastSnappedPos n)]> (nodes w)) w)) /\
  (exists w' n' g', toggleAcceptNode self w = Some (tt, w') /\
     nodes w' !! self = Some n' /\ nodeGroup n' = Some g' /\
     isAcceptNode n' = negb (isAcceptNode n) /\ g_acceptVisible g' = negb (isAcceptNode n)) /\
  (g_acceptVisible g = _isAcceptNode n ->
     (toggleAcceptNode self ;; toggleAcceptNode self) w = Some (tt, w)).
Proof.
  intros H Hg. split; [|split].
  - intros v. apply setIsAcceptNode_run; assumption.
  - unfold toggleAcceptNode. rewrite (get_node_k _ _ _ _ H), (setIsAcceptNode_run _ _ _ _ _ H Hg).
    do 3 eexists. split; [reflexivity|]. split; [apply lookup_insert_eq|].
    split; [reflexivity|]. split; reflexivity.
  - intros Hv.
    assert (R1 : toggleAcceptNode self w = setIsAcceptNode self (negb (_isAcceptNode n)) w)
      by (unfold toggleAcceptNode; rewrite (get_node_k _ _ _ _ H); reflexivity).
    rewrite (setIsAcceptNode_run _ _ _ _ _ H Hg) in R1.
    rewrite (bind_ok _ _ _ _ _ R1).
    unfold toggleAcceptNode.
    rewrite (get_node_k _ _ _ _ (lookup_insert_eq _ _ _)). cbn [_isAcceptNode].
    assert (H1 : nodes (set_nodes (<[self := mkNode (_id n) (_labelText n) (negb (_isAcceptNode n))
                   (Some (with_acceptVisible (negb (_isAcceptNode n)) g)) (lastPos n)
                   (lastSnappedPos n)]> (nodes w)) w) !! self =
                 Some (mkNode (_id n) (_labelText n) (negb (_isAcceptNode n))
                   (Some (with_acceptVisible (negb (_isAcceptNode n)) g)) (lastPos n)
                   (lastSnappedPos n))) by apply lookup_insert_eq.
    rewrite (setIsAcceptNode_run _ _ _ _ _ H1 eq_refl).
    cbn [set_nodes nodes _id _labelText lastPos lastSnappedPos]. rewrite insert_insert_eq.
    rewrite negb_involutive.
    assert (En : mkNode (_id n) (_labelText n) (_isAcceptNode n)
                   (Some (with_acceptVisible (_isAcceptNode n)
                            (with_acceptVisible (negb (_isAcceptNode n)) g)))
                   (lastPos n) (lastSnappedPos n) = n).
    { destruct n as [i l a gr lp lsp]; cbn in *. subst gr. destruct g; cbn in *.
      subst. reflexivity. }
    rewrite En, insert_id by exact H. rewrite set_nodes_twice, set_nodes_self. reflexivity.
Qed.

Lemma accept_toggle_roundtrip_witness :
  (toggleAcceptNode 1 ;; toggleAcceptNode 1) (sampleWorld Select false (mkVec 73 124) origin) =
    Some (tt, sampleWorld Select false (mkVec 73 124) origin).
Proof.
  exact (proj2 (proj2 (accept_toggle_roundtrip (sampleWorld Select false (mkVec 73 124) origin) 1
           (sampleNode (mkVec 73 124) origin) (sampleGroup (mkVec 73 124)) eq_refl eq_refl))
           eq_refl).
Defined.

(* ================================================================== *)
(** * Before createKonvaObjects *)






(* ================================================================== *)
(** * More on snapping *)

Lemma snapped_coord_bounds (q : Q) :
  (q - 25 < inject_Z (math_round (q / gridCellSize)) * gridCellSize <= q + 25)%Q.
Proof.
  unfold math_round, gridCellSize.
  set (k := Qfloor (q / 50 + (1 # 2))).
  pose proof (Qfloor_le (q / 50 + (1 # 2))) as Hle.
  pose proof (Qlt_floor (q / 50 + (1 # 2))) as Hlt. fold k in Hle, Hlt.
  assert (E1 : ((q / 50 + (1 # 2)) * 50 == q + 25)%Q) by field.
  assert (E2 : (inject_Z (k + 1) * 50 == inject_Z k * 50 + 50)%Q)
    by (rewrite inject_Z_plus; ring).
  split.
  - assert (H : ((q / 50 + (1 # 2)) * 50 < inject_Z (k + 1) * 50)%Q)
      by (apply Qmult_lt_r; [reflexivity|exact Hlt]).
    rewrite E1, E2 in H. lra.
  - assert (H : (inject_Z k * 50 <= (q / 50 + (1 # 2)) * 50)%Q)
      by (apply Qmult_le_r; [reflexivity|exact Hle]).
    rewrite E1 in H. lra.
Qed.

(** [snapToGrid] moves a node by at most half a grid cell (25) on each
    axis: [x - 25 < snapped x <= x + 25], the upper bound reached at
    halfway points. *)
Theorem snapToGrid_within_half_cell (w : World) (self : nat) (n : NodeWrapper) (g : Group) :
  nodes w !! self = Some n -> nodeGroup n = Some g ->
  exists s w', snapToGrid self w = Some (s, w') /\
    (vx (g_pos g) - 25 < vx s <= vx (g_pos g) + 25)%Q /\
    (vy (g_pos g) - 25 < vy s <= vy (g_pos g) + 25)%Q.
Proof.
  intros H Hg. do 2 eexists. split; [exact (snapToGrid_run w self n g H Hg)|].
  split; apply snapped_coord_bounds.
Qed.

Lemma snapToGrid_within_half_cell_witness :
  exists s w', snapToGrid 1 (sampleWorld Select true (mkVec 73 124) origin) = Some (s, w') /\
    (73 - 25 < vx s <= 73 + 25)%Q /\ (124 - 25 < vy s <= 124 + 25)%Q.
Proof.
  exact (snapToGrid_within_half_cell (sampleWorld Select true (mkVec 73 124) origin) 1
           (sampleNode (mkVec 73 124) origin) (sampleGroup (mkVec 73 124)) eq_refl eq_refl).
Defined.

(** Snapping is idempotent: a second [snapToGrid] right after the first
    returns the same position, leaves every node as the first left it,
    and requests again the redraw of the same transitions. *)
Theorem snapToGrid_idempotent (w : World) (self : nat) (n : NodeWrapper) (g : Group) :
  nodes w !! self = Some n -> nodeGroup n = Some g ->
  exists s w1 w2, snapToGrid self w = Some (s, w1) /\ snapToGrid self w1 = Some (s, w2) /\
    nodes w2 = nodes w1 /\
    drop (length (calls w1)) (calls w2) = drop (length (calls w)) (calls w1).
Proof.
  intros H Hg.
  set (s := snappedOf (g_pos g)).
  set (g1 := with_pos s g). set (n1 := upd_group n g1).
  set (w1 := log_calls (updatedPoints (transitions w) self)
               (set_nodes (<[self := n1]> (nodes w)) w)).
  assert (H1 : nodes w1 !! self = Some n1) by apply lookup_insert_eq.
  assert (Hg1 : nodeGroup n1 = Some g1) by reflexivity.
  exists s, w1. eexists. split; [exact (snapToGrid_run w self n g H Hg)|].
  rewrite (snapToGrid_run w1 self n1 g1 H1 Hg1).
  assert (Es : snappedOf (g_pos g1) = s) by apply snappedOf_idem.
  rewrite Es. split; [reflexivity|]. split.
  - cbn [log_calls set_nodes nodes].
    assert (En : upd_group n1 (with_pos s g1) = n1).
    { unfold n1, g1, upd_group, with_pos. reflexivity. }
    rewrite En. unfold w1. cbn [log_calls set_nodes nodes]. rewrite insert_insert_eq.
    reflexivity.
  - unfold w1. cbn [log_calls set_nodes calls transitions].
    rewrite !drop_app_length. reflexivity.
Qed.

Lemma snapToGrid_idempotent_witness :
  exists s w1 w2, snapToGrid 1 (sampleWorld Select true (mkVec 73 124) origin) = Some (s, w1) /\
    snapToGrid 1 w1 = Some (s, w2) /\ nodes w2 = nodes w1 /\
    drop (length (calls w1)) (calls w2) =
      drop (length (calls (sampleWorld Select true (mkVec 73 124) origin))) (calls w1).
Proof.
  exact (snapToGrid_idempotent (sampleWorld Select true (mkVec 73 124) origin) 1
           (sampleNode (mkVec 73 124) origin) (sampleGroup (mkVec 73 124)) eq_refl eq_refl).
Defined.

Lemma updatedPoints_filter ts r :
  updatedPoints ts r = map (fun t => CUpdatePoints (t_ref t)) (List.filter (fun t => involvesNode t r) ts).
Proof.
  unfold updatedPoints. induction ts as [|t ts IH]; [reflexivity|].
  cbn [map concat List.filter]. destruct (involvesNode t r); cbn; rewrite IH; reflexivity.
Qed.

(** [snapToGrid] asks for a redraw ([updatePoints]) of exactly the
    transitions having the node as an end, once each, in the order of
    [StateManager.transitions], and makes no other call. *)
Theorem snapToGrid_redraws_involved_transitions (w : World) (self : nat) (n : NodeWrapper)
    (g : Group) :
  nodes w !! self = Some n -> nodeGroup n = Some g ->
  exists s w', snapToGrid self w = Some (s, w') /\
    calls w' = calls w ++ map (fun t => CUpdatePoints (t_ref t))
                              (List.filter (fun t => involvesNode t self) (transitions w)).
Proof.
  intros H Hg. do 2 eexists. split; [exact (snapToGrid_run w self n g H Hg)|].
  cbn [log_calls set_nodes calls]. rewrite updatedPoints_filter. reflexivity.
Qed.

Lemma snapToGrid_redraws_involved_transitions_witness :
  exists s w',
    snapToGrid 1 sampleTransWorld =
      Some (s, w') /\ calls w' = [CUpdatePoints 7; CUpdatePoints 9].
Proof.
  destruct (snapToGrid_redraws_involved_transitions
              sampleTransWorld 1
              (sampleNode (mkVec 73 124) origin) (sampleGroup (mkVec 73 124))
              eq_refl eq_refl)
    as (s & w' & R & Hc).
  exists s, w'. split; [exact R|]. rewrite Hc. reflexivity.
Defined.

(* ================================================================== *)
(** * The label *)

(** A label text set with [set labelText] is what [toSerializable]
    reports afterwards and what the label shows; the id and the position
    are kept, and the font size is the one [adjustFontSize] computes for
    the new text. *)
Theorem setLabelText_serializes (measure : string -> Z -> Q) (w : World) (self : nat)
    (n : NodeWrapper) (g : Group) (v : string) (f : Z) :
  nodes w !! self = Some n -> nodeGroup n = Some g ->
  exists w', setLabelText measure self v f w = Some (adjustFontSize measure v f, w') /\
    toSerializable self w' = Some (mkSerState (node_id n) (vx (g_pos g)) (vy (g_pos g)) v, w') /\
    (exists n' g', nodes w' !! self = Some n' /\ nodeGroup n' = Some g' /\
                   labelText n' = v /\ g_labelText g' = v).
Proof.
  intros H Hg. eexists. split; [exact (setLabelText_run measure w self n g v f H Hg)|].
  rewrite toSerializable_run. cbn [set_nodes nodes]. rewrite lookup_insert_eq.
  split; [reflexivity|]. do 2 eexists. split; [reflexivity|]. split; [reflexivity|].
  split; reflexivity.
Qed.

Lemma setLabelText_serializes_witness :
  exists w', setLabelText sampleMeasure 1 "q1" 15 (sampleWorld Select true (mkVec 73 124) origin) =
               Some (adjustFontSize sampleMeasure "q1" 15, w') /\
    toSerializable 1 w' = Some (mkSerState "n1" 73 124 "q1", w') /\
    (exists n' g', nodes w' !! 1 = Some n' /\ nodeGroup n' = Some g' /\
                   labelText n' = "q1" /\ g_labelText g' = "q1").
Proof.
  exact (setLabelText_serializes sampleMeasure (sampleWorld Select true (mkVec 73 124) origin) 1
           (sampleNode (mkVec 73 124) origin) (sampleGroup (mkVec 73 124)) "q1" 15 eq_refl eq_refl).
Defined.


(** Setting a label twice need not give the same font size. If the first
    [set labelText] had to shrink the font and stopped at a size [r]
    above 10 at which the text is strictly narrower than the label box,
    setting the same text again grows the font to [r + 1], a size at
    which the text is wider than the box, and setting it a third time
    brings it back to [r]: repeated sets alternate between the two. *)
Theorem setLabelText_font_alternates (measure : string -> Z -> Q) (w : World) (self : nat)
    (n : NodeWrapper) (g : Group) (v : string) (f : Z) :
  nodes w !! self = Some n -> nodeGroup n = Some g ->
  (10 < f <= 15)%Z -> (maxTextWidth < measure v f)%Q ->
  let r := adjustFontSize measure v f in
  (10 < r)%Z -> (measure v r < maxTextWidth)%Q ->
  exists w1 w2 w3,
    setLabelText measure self v f w = Some (r, w1) /\
    setLabelText measure self v r w1 = Some ((r + 1)%Z, w2) /\
    (maxTextWidth < measure v (r + 1)%Z)%Q /\
    setLabelText measure self v (r + 1)%Z w2 = Some (r, w3).
Proof.
  intros H Hg Hf Hw r Hr Hfit.
  destruct (shrink_then_grow measure v f Hf Hw Hr Hfit) as (E1 & Hwide & E2).
  fold r in E1, E2, Hwide.
  set (w1 := set_nodes (<[self := mkNode (_id n) v (_isAcceptNode n)
                          (Some (with_labelText v g)) (lastPos n) (lastSnappedPos n)]>
                        (nodes w)) w).
  assert (H1 : nodes w1 !! self = Some (mkNode (_id n) v (_isAcceptNode n)
                          (Some (with_labelText v g)) (lastPos n) (lastSnappedPos n)))
    by apply lookup_insert_eq.
  set (w2 := set_nodes (<[self := mkNode (_id n) v (_isAcceptNode n)
                          (Some (with_labelText v (with_labelText v g))) (lastPos n)
                          (lastSnappedPos n)]> (nodes w1)) w1).
  assert (H2 : nodes w2 !! self = Some (mkNode (_id n) v (_isAcceptNode n)
                          (Some (with_labelText v (with_labelText v g))) (lastPos n)
                          (lastSnappedPos n)))
    by apply lookup_insert_eq.
  exists w1, w2. eexists. split; [|split; [|split]].
  - exact (setLabelText_run measure w self n g v f H Hg).
  - rewrite (setLabelText_run measure w1 self _ _ v r H1 eq_refl), E1. reflexivity.
  - exact Hwide.
  - rewrite (setLabelText_run measure w2 self _ _ v (r + 1)%Z H2 eq_refl), E2. reflexivity.
Qed.

Lemma setLabelText_font_alternates_witness :
  exists w1 w2 w3,
    setLabelText sampleMeasure 1 "state" 15 (sampleWorld Select true (mkVec 73 124) origin) =
      Some (11%Z, w1) /\
    setLabelText sampleMeasure 1 "state" 11 w1 = Some (12%Z, w2) /\
    (maxTextWidth < sampleMeasure "state" 12)%Q /\
    setLabelText sampleMeasure 1 "state" 12 w2 = Some (11%Z, w3).
Proof.
  exact (setLabelText_font_alternates sampleMeasure (sampleWorld Select true (mkVec 73 124) origin) 1
           (sampleNode (mkVec 73 124) origin) (sampleGroup (mkVec 73 124)) "state" 15
           eq_refl eq_refl ltac:(lia) ltac:(vm_compute; reflexivity)
           ltac:(vm_compute; reflexivity) ltac:(vm_compute; reflexivity)).
Defined.

(* ================================================================== *)
(** * The look of a node *)

Lemma modify_bg_run w r n g f :
  nodes w !! r = Some n -> nodeGroup n = Some g ->
  modify_bg r f w = Some (tt, set_nodes (<[r := upd_group n (with_bg (f (g_bg g)) g)]> (nodes w)) w).
Proof. intros H Hg. unfold modify_bg. exact (modify_group_ok _ _ _ _ _ H Hg). Qed.




Lemma setErrorState_run w self n g e :
  nodes w !! self = Some n -> nodeGroup n = Some g ->
  setErrorState self e w =
    Some (tt, set_nodes (<[self := upd_group n (errorStateGroup (colorScheme w) e g)]> (nodes w)) w).
Proof.
  intros H Hg. unfold setErrorState. step_group. destruct e.
  - unfold modify_bg. do 3 step_group. step_group.
    cbn [set_nodes nodes colorScheme]. rewrite !insert_insert_eq. reflexivity.
  - rewrite gets_k. unfold modify_bg. step_group. step_group.
    cbn [set_nodes nodes colorScheme]. rewrite !insert_insert_eq. reflexivity.
Qed.

Lemma filter_overlay (l : list KElem) :
  List.filter (fun e => negb (isErrorElem e))
    ((List.filter (fun e => negb (isErrorElem e)) l ++ [errorIcon]) ++ [errorText]) =
  List.filter (fun e => negb (isErrorElem e)) l.
Proof.
  rewrite !List.filter_app. cbn. rewrite !app_nil_r.
  induction l as [|e l IH]; [reflexivity|]. cbn.
  destruct (isErrorElem e) eqn:E; cbn; [exact IH|]. rewrite E. cbn. f_equal. exact IH.
Qed.

Lemma filter_clean (l : list KElem) :
  forallb (fun e => negb (isErrorElem e)) l = true ->
  List.filter (fun e => negb (isErrorElem e)) l = l.
Proof.
  induction l as [|e l IH]; [reflexivity|]. cbn. intros Hb.
  apply andb_true_iff in Hb as [H1 H2]. rewrite H1. f_equal. auto.
Qed.

Lemma filter_idem (l : list KElem) :
  List.filter (fun e => negb (isErrorElem e)) (List.filter (fun e => negb (isErrorElem e)) l) =
  List.filter (fun e => negb (isErrorElem e)) l.
Proof.
  induction l as [|e l IH]; [reflexivity|]. cbn.
  destruct (isErrorElem e) eqn:E; cbn; [exact IH|]. rewrite E. cbn. f_equal. exact IH.
Qed.

(** [setErrorState(true)] followed by [setErrorState(false)] ends exactly
    where [setErrorState(false)] alone ends, and [setErrorState(false)] is
    idempotent; on a group carrying no error icon or glyph,
    [setErrorState(false)] keeps the children and the position, resets
    fill and stroke to the color scheme with width 2, and keeps the
    shadow. *)
Theorem setErrorState_clear_restores (w : World) (self : nat) (n : NodeWrapper) (g : Group) :
  nodes w !! self = Some n -> nodeGroup n = Some g ->
  (setErrorState self true ;; setErrorState self false) w = setErrorState self false w /\
  (setErrorState self false ;; setErrorState self false) w = setErrorState self false w /\
  (forallb (fun e => negb (isErrorElem e)) (g_children g) = true ->
   exists w' n' g', setErrorState self false w = Some (tt, w') /\
     nodes w' !! self = Some n' /\ nodeGroup n' = Some g' /\
     g_children g' = g_children g /\ g_pos g' = g_pos g /\
     bg_fill (g_bg g') = nodeFill (colorScheme w) /\
     bg_stroke (g_bg g') = nodeStrokeColor (colorScheme w) /\
     bg_strokeWidth (g_bg g') = 2%Q /\
     bg_shadowEnabled (g_bg g') = bg_shadowEnabled (g_bg g)).
Proof.
  intros H Hg. split; [|split].
  - rewrite (bind_ok _ _ _ _ _ (setErrorState_run _ _ _ _ true H Hg)).
    erewrite (setErrorState_run _ _ _ _ false); [| apply lookup_insert_eq | reflexivity].
    rewrite (setErrorState_run _ _ _ _ false H Hg).
    cbn [set_nodes nodes colorScheme]. rewrite insert_insert_eq.
    unfold errorStateGroup, clearErrors. cbn [g_children with_children with_bg].
    rewrite filter_overlay. reflexivity.
  - rewrite (bind_ok _ _ _ _ _ (setErrorState_run _ _ _ _ false H Hg)).
    erewrite (setErrorState_run _ _ _ _ false); [| apply lookup_insert_eq | reflexivity].
    rewrite (setErrorState_run _ _ _ _ false H Hg).
    cbn [set_nodes nodes colorScheme]. rewrite insert_insert_eq.
    unfold errorStateGroup, clearErrors. cbn [g_children with_children with_bg].
    rewrite filter_idem. reflexivity.
  - intros Hc. rewrite (setErrorState_run _ _ _ _ false H Hg).
    do 3 eexists. split; [reflexivity|]. split; [apply lookup_insert_eq|].
    split; [reflexivity|]. cbn. rewrite filter_clean by exact Hc.
    repeat split.
Qed.

Lemma setErrorState_clear_restores_witness :
  (setErrorState 1 true ;; setErrorState 1 false)
    (sampleWorld Select true (mkVec 73 124) origin) =
  setErrorState 1 false (sampleWorld Select true (mkVec 73 124) origin).
Proof.
  exact (proj1 (setErrorState_clear_restores
           (sampleWorld Select true (mkVec 73 124) origin) 1
           (sampleNode (mkVec 73 124) origin) (sampleGroup (mkVec 73 124))
           eq_refl eq_refl)).
Defined.

(** [updateColorScheme()] sets fill and stroke color of the background
    to the current scheme and keeps the stroke width, the shadow, the
    position and the children; so a selected node keeps its selected
    stroke width 4 while its stroke color goes back to the unselected
    one. *)
Theorem updateColorScheme_keeps_width (w : World) (self : nat) (n : NodeWrapper) (g : Group) :
  nodes w !! self = Some n -> nodeGroup n = Some g ->
  (exists w' n' g', updateColorScheme self w = Some (tt, w') /\
     nodes w' !! self = Some n' /\ nodeGroup n' = Some g' /\
     bg_fill (g_bg g') = nodeFill (colorScheme w) /\
     bg_stroke (g_bg g') = nodeStrokeColor (colorScheme w) /\
     bg_strokeWidth (g_bg g') = bg_strokeWidth (g_bg g) /\
     bg_shadowEnabled (g_bg g') = bg_shadowEnabled (g_bg g) /\
     g_pos g' = g_pos g /\ g_children g' = g_children g) /\
  (exists w' n' g', (select self ;; updateColorScheme self) w = Some (tt, w') /\
     nodes w' !! self = Some n' /\ nodeGroup n' = Some g' /\
     bg_stroke (g_bg g') = nodeStrokeColor (colorScheme w) /\
     bg_strokeWidth (g_bg g') = 4%Q).
Proof.
  intros H Hg. split.
  - unfold updateColorScheme. rewrite gets_k. unfold modify_bg. step_group. step_group.
    do 3 eexists. split; [reflexivity|]. split; [eassumption|]. split; [eassumption|].
    repeat split.
  - assert (R : select self w = Some (tt, set_nodes (<[self := upd_group n
                  (with_bg (bg_set_stroke (selectedNodeStrokeColor (colorScheme w))
                     SelectedStrokeWidth (g_bg g)) g)]> (nodes w)) w))
      by (unfold select; rewrite gets_k; apply modify_bg_run; assumption).
    rewrite (bind_ok _ _ _ _ _ R). clear R.
    destruct (upd_group_lookup w self n (with_bg (bg_set_stroke (selectedNodeStrokeColor (colorScheme w))
                     SelectedStrokeWidth (g_bg g)) g)) as [H1 Hg1]. clear H Hg.
    unfold updateColorScheme. rewrite gets_k. unfold modify_bg. step_group. step_group.
    do 3 eexists. split; [reflexivity|]. split; [eassumption|]. split; [eassumption|].
    split; reflexivity.
Qed.

Lemma updateColorScheme_keeps_width_witness :
  exists w' n' g', (select 1 ;; updateColorScheme 1)
      (sampleWorld Select true (mkVec 73 124) origin) = Some (tt, w') /\
     nodes w' !! 1 = Some n' /\ nodeGroup n' = Some g' /\
     bg_stroke (g_bg g') = "black" /\ bg_strokeWidth (g_bg g') = 4%Q.
Proof.
  exact (proj2 (updateColorScheme_keeps_width
           (sampleWorld Select true (mkVec 73 124) origin) 1
           (sampleNode (mkVec 73 124) origin) (sampleGroup (mkVec 73 124))
           eq_refl eq_refl)).
Defined.

(* ================================================================== *)
(** * Loops over the selection *)

Lemma alter_live (f : Group -> Group) (m : gmap nat NodeWrapper) r n g :
  m !! r = Some n -> nodeGroup n = Some g ->
  alter (mapGroup f) r m = <[r := upd_group n (f g)]> m.
Proof.
  intros H Hg. apply map_eq. intros i. destruct (decide (i = r)) as [->|Hne].
  - rewrite lookup_alter_eq, lookup_insert_eq, H. cbn. unfold mapGroup. rewrite Hg. reflexivity.
  - rewrite lookup_alter_ne, lookup_insert_ne by congruence. reflexivity.
Qed.


Section ForEachGroups.
Variable f : Group -> Group.
Variable c : nat -> list Call.
Variable B : SelectableObject -> M unit.
Variable cs0 : ColorScheme.
Hypothesis HBn : forall r w n g, colorScheme w = cs0 ->
  nodes w !! r = Some n -> nodeGroup n = Some g ->
  B (SelNode r) w = Some (tt, log_calls (c r) (set_nodes (<[r := upd_group n (f g)]> (nodes w)) w)).
Hypothesis HBt : forall t w, B (SelTransition t) w = Some (tt, w).

Lemma forEach_groups (l : list SelectableObject) : forall w,
  colorScheme w = cs0 -> (forall r, SelNode r ∈ l -> liveNode w r) ->
  forEach B l w =
    Some (tt, log_calls (flat_map c (selRefs l)) (set_nodes (groupMap f (nodes w) l) w)).
Proof.
  induction l as [|[r|t] l IH]; intros w Hcs Hl; cbn [forEach groupMap selRefs flat_map].
  - destruct w; unfold log_calls, set_nodes; cbn; rewrite app_nil_r; reflexivity.
  - destruct (Hl r (list_elem_of_here _ _)) as (n & g & H & Hg).
    rewrite (bind_ok _ _ _ _ _ (HBn r w n g Hcs H Hg)).
    rewrite IH.
    + rewrite (alter_live f _ r n g H Hg). cbn. unfold log_calls, set_nodes. cbn.
      rewrite app_assoc. reflexivity.
    + exact Hcs.
    + intros q Hq. destruct (Hl q (list_elem_of_further _ _ _ Hq)) as (nq & gq & Hq1 & Hq2).
      destruct (decide (q = r)) as [->|Hne].
      * exists (upd_group n (f g)), (f g). cbn. rewrite lookup_insert_eq. split; reflexivity.
      * exists nq, gq. cbn. rewrite lookup_insert_ne by congruence. split; assumption.
  - rewrite (bind_ok _ _ _ _ _ (HBt t w)). apply IH; [exact Hcs|].
    intros q Hq. apply Hl. apply list_elem_of_further. exact Hq.
Qed.
End ForEachGroups.

Lemma groupMap_notin f (l : list SelectableObject) : forall m r,
  SelNode r ∉ l -> groupMap f m l !! r = m !! r.
Proof.
  induction l as [|[q|t] l IH]; intros m r Hn; cbn [groupMap]; [reflexivity| |].
  - rewrite IH by (intros Hi; apply Hn; apply list_elem_of_further; exact Hi).
    rewrite lookup_alter_ne; [reflexivity|]. intros ->. apply Hn. apply list_elem_of_here.
  - apply IH. intros Hi; apply Hn; apply list_elem_of_further; exact Hi.
Qed.

Lemma groupMap_in_idem f (Hf : forall g, f (f g) = f g) (l : list SelectableObject) : forall m r n g,
  SelNode r ∈ l -> m !! r = Some n -> nodeGroup n = Some g ->
  groupMap f m l !! r = Some (upd_group n (f g)).
Proof.
  induction l as [|[q|t] l IH]; intros m r n g Hi H Hg; cbn [groupMap].
  - apply not_elem_of_nil in Hi. contradiction.
  - destruct (decide (q = r)) as [->|Hne].
    + rewrite (alter_live f m r n g H Hg).
      destruct (decide (SelNode r ∈ l)) as [Hl|Hl].
      * rewrite (IH _ r (upd_group n (f g)) (f g) Hl (lookup_insert_eq _ _ _) eq_refl).
        rewrite Hf. reflexivity.
      * rewrite groupMap_notin by exact Hl. apply lookup_insert_eq.
    + apply elem_of_cons in Hi as [E|E]; [congruence|].
      apply IH; [exact E| |exact Hg]. rewrite lookup_alter_ne by congruence. exact H.
  - apply elem_of_cons in Hi as [E|E]; [discriminate|]. apply IH; assumption.
Qed.


Lemma flat_map_nil {A B} (l : list A) : flat_map (fun _ => @nil B) l = [].
Proof. induction l; [reflexivity|exact IHl]. Qed.





(** In Select mode with snapping off, a drag end switches off the shadow
    of every selected node and of no other node, moves no node, and
    commits the dragged node's current position with one call of
    [completeDragStatesOperation]. *)
Theorem onDragEnd_plain_drop (w : World) (self : nat) (n : NodeWrapper) (g : Group) :
  currentTool w = Select -> snapToGridEnabled w = false ->
  nodes w !! self = Some n -> nodeGroup n = Some g ->
  (forall r, SelNode r ∈ selectedObjects w -> liveNode w r) ->
  exists w', onDragEnd self w = Some (tt, w') /\
    calls w' = (calls w ++ [CCompleteDragStatesOperation (g_pos g)])%list /\
    selectedObjects w' = selectedObjects w /\
    tentativeTransition w' = tentativeTransition w /\
    (forall r nr gr, SelNode r ∈ selectedObjects w ->
       nodes w !! r = Some nr -> nodeGroup nr = Some gr ->
       nodes w' !! r = Some (upd_group nr (with_bg (bg_set_shadowEnabled false (g_bg gr)) gr))) /\
    (forall r, SelNode r ∉ selectedObjects w -> nodes w' !! r = nodes w !! r).
Proof.
  intros Ht Hs H Hg Hl. unfold onDragEnd. rewrite !gets_k, Ht, Hs.
  rewrite bool_decide_eq_false_2 by discriminate.
  rewrite bool_decide_eq_true_2 by reflexivity. cbn [andb].
  rewrite bool_decide_eq_false_2 by discriminate.
  rewrite gets_k.
  rewrite (bind_ok _ _ _ _ _ (forEach_groups shadowOff (fun _ => [])
              (fun o => match o with SelNode r => disableShadowEffects r
                        | SelTransition _ => mret tt end) (colorScheme w)
              ltac:(intros r w' nr gr _ Hr Hgr; unfold disableShadowEffects;
                    rewrite (modify_bg_run _ _ _ _ _ Hr Hgr); destruct w';
                    unfold log_calls, set_nodes; cbn; rewrite app_nil_r; reflexivity)
              ltac:(intros t w'; reflexivity)
              (selectedObjects w) w eq_refl Hl)).
  assert (Hself : exists g', groupMap shadowOff (nodes w) (selectedObjects w) !! self =
                    Some (upd_group n g') /\ g_pos g' = g_pos g).
  { destruct (decide (SelNode self ∈ selectedObjects w)) as [Hi|Hi].
    - exists (shadowOff g). split; [|reflexivity].
      apply groupMap_in_idem; [intros; reflexivity|exact Hi|exact H|exact Hg].
    - exists g. rewrite groupMap_notin by exact Hi. rewrite H. split; [|reflexivity].
      destruct n; cbn in *; subst; reflexivity. }
  destruct Hself as (g' & Hs' & Hp').
  rewrite flat_map_nil. rewrite (get_group_k (log_calls [] (set_nodes (groupMap shadowOff (nodes w)
             (selectedObjects w)) w)) self (upd_group n g') g' _ Hs' eq_refl).
  unfold completeDragStatesOperation. rewrite Hp'.
  eexists. split; [reflexivity|]. cbn. rewrite app_nil_r.
  split; [reflexivity|]. split; [reflexivity|]. split; [reflexivity|]. split.
  - intros r nr gr Hi Hr Hgr. apply (groupMap_in_idem shadowOff); [intros; reflexivity|exact Hi|exact Hr|exact Hgr].
  - intros r Hi. apply groupMap_notin. exact Hi.
Qed.

(** In Transitions mode, a drag end only ends the tentative transition:
    [endTentativeTransition] is called once, the tentative record and its
    target are cleared, and no node and no selection is touched. *)
Theorem onDragEnd_transitions_only_ends (w : World) (self : nat) :
  currentTool w = Transitions ->
  exists w', onDragEnd self w = Some (tt, w') /\
    nodes w' = nodes w /\ selectedObjects w' = selectedObjects w /\
    tentativeTransition w' = None /\ tentativeTransitionTarget w' = None /\
    calls w' = (calls w ++ [CEndTentativeTransition])%list.
Proof.
  intros Ht. unfold onDragEnd. rewrite !gets_k, Ht.
  rewrite !bool_decide_eq_false_2 by discriminate. cbn [andb].
  rewrite bool_decide_eq_true_2 by reflexivity.
  eexists. split; [reflexivity|]. cbn. repeat split.
Qed.

Lemma onDragEnd_transitions_only_ends_witness :
  exists w', onDragEnd 1 (sampleHoverWorld (Some 2)) = Some (tt, w') /\
    tentativeTransition w' = None /\ calls w' = [CEndTentativeTransition].
Proof.
  destruct (onDragEnd_transitions_only_ends (sampleHoverWorld (Some 2)) 1 eq_refl)
    as (w' & R & _ & _ & Ht & _ & Hc).
  exists w'. split; [exact R|]. split; [exact Ht|]. rewrite Hc. reflexivity.
Defined.


Lemma deselectAllObjects_run w :
  (forall r, SelNode r ∈ selectedObjects w -> liveNode w r) ->
  deselectAllObjects w =
    Some (tt, set_selected [] (set_nodes (groupMap (deselectGroup (colorScheme w)) (nodes w)
                                  (selectedObjects w)) (log_call CDeselectAllObjects w))).
Proof.
  intros Hl. unfold deselectAllObjects. rewrite emit_k, gets_k.
  rewrite (bind_ok _ _ _ _ _ (forEach_groups (deselectGroup (colorScheme w)) (fun _ => [])
              (fun o => match o with SelNode r => deselect r
                        | SelTransition _ => mret tt end) (colorScheme w)
              ltac:(intros r w' nr gr Hc Hr Hgr; unfold deselect; rewrite gets_k, Hc;
                    rewrite (modify_bg_run _ _ _ _ _ Hr Hgr); destruct w';
                    unfold log_calls, set_nodes; cbn; rewrite app_nil_r; reflexivity)
              ltac:(intros t w'; reflexivity)
              (selectedObjects w) (log_call CDeselectAllObjects w) eq_refl Hl)).
  rewrite flat_map_nil. unfold log_calls, set_nodes, set_selected, log_call. cbn.
  rewrite app_nil_r. reflexivity.
Qed.

(** In Select mode, a click without shift empties the selection
    (restoring the unselected stroke, width 2, on every previously
    selected node) and then selects the clicked node alone with the
    selected stroke, width 4; a click with shift adds the clicked node to
    the selection if it is not yet in it and touches no other node. *)
Theorem onClick_selection (w : World) (self : nat) (n : NodeWrapper) (g : Group) :
  currentTool w = Select ->
  nodes w !! self = Some n -> nodeGroup n = Some g ->
  (forall r, SelNode r ∈ selectedObjects w -> liveNode w r) ->
  (forall ev, shiftKey ev = false ->
     exists w', onClick self ev w = Some (tt, w') /\
       selectedObjects w' = [SelNode self] /\
       calls w' = (calls w ++ [CDeselectAllObjects; CSelectObject (SelNode self)])%list /\
       (exists n' g', nodes w' !! self = Some n' /\ nodeGroup n' = Some g' /\
          bg_stroke (g_bg g') = selectedNodeStrokeColor (colorScheme w) /\
          bg_strokeWidth (g_bg g') = 4%Q) /\
       (forall r nr gr, r <> self -> SelNode r ∈ selectedObjects w ->
          nodes w !! r = Some nr -> nodeGroup nr = Some gr ->
          nodes w' !! r = Some (upd_group nr (with_bg (bg_set_stroke
                             (nodeStrokeColor (colorScheme w)) 2 (g_bg gr)) gr))) /\
       (forall r, r <> self -> SelNode r ∉ selectedObjects w -> nodes w' !! r = nodes w !! r)) /\
  (forall ev, shiftKey ev = true ->
     exists w', onClick self ev w = Some (tt, w') /\
       selectedObjects w' = (if bool_decide (SelNode self ∈ selectedObjects w)
                             then selectedObjects w
                             else selectedObjects w ++ [SelNode self])%list /\
       calls w' = (calls w ++ [CSelectObject (SelNode self)])%list /\
       (SelNode self ∈ selectedObjects w -> nodes w' = nodes w) /\
       (forall r, r <> self -> nodes w' !! r = nodes w !! r)).
Proof.
  intros Ht H Hg Hl. split.
  - intros ev Hs. unfold onClick. rewrite gets_k, Ht, bool_decide_eq_true_2 by reflexivity.
    rewrite Hs. cbn [negb].
    rewrite (bind_ok _ _ _ _ _ (deselectAllObjects_run w Hl)).
    set (m1 := groupMap (deselectGroup (colorScheme w)) (nodes w) (selectedObjects w)).
    assert (Hself : exists n1 g1, m1 !! self = Some n1 /\ nodeGroup n1 = Some g1).
    { destruct (decide (SelNode self ∈ selectedObjects w)) as [Hi|Hi].
      - exists (upd_group n (deselectGroup (colorScheme w) g)), (deselectGroup (colorScheme w) g).
        split; [|reflexivity]. apply groupMap_in_idem; [intros; reflexivity|exact Hi|exact H|exact Hg].
      - exists n, g. unfold m1. rewrite groupMap_notin by exact Hi. split; assumption. }
    destruct Hself as (n1 & g1 & H1 & Hg1).
    unfold selectObject. rewrite emit_k, gets_k. cbn [selectedObjects set_selected log_call].
    rewrite decide_False by apply not_elem_of_nil.
    rewrite modify_k. unfold select. rewrite gets_k.
    erewrite modify_bg_run; [| exact H1 | exact Hg1].
    eexists. split; [reflexivity|]. cbn [set_nodes set_selected log_call nodes calls selectedObjects colorScheme].
    split; [reflexivity|]. split; [rewrite <- app_assoc; reflexivity|]. split.
    + do 2 eexists. split; [apply lookup_insert_eq|]. split; [reflexivity|]. split; reflexivity.
    + split.
      * intros r nr gr Hne Hi Hr Hgr. rewrite lookup_insert_ne by congruence.
        apply (groupMap_in_idem (deselectGroup (colorScheme w))); [intros; reflexivity|exact Hi|exact Hr|exact Hgr].
      * intros r Hne Hi. rewrite lookup_insert_ne by congruence. apply groupMap_notin. exact Hi.
  - intros ev Hs. unfold onClick. rewrite gets_k, Ht, bool_decide_eq_true_2 by reflexivity.
    rewrite Hs. cbn [negb]. rewrite (bind_ok _ _ _ _ _ (eq_refl : (mret tt : M unit) w = Some (tt, w))).
    unfold selectObject. rewrite emit_k, gets_k. cbn [selectedObjects log_call].
    destruct (decide (SelNode self ∈ selectedObjects w)) as [Hi|Hi].
    + rewrite bool_decide_eq_true_2 by exact Hi.
      eexists. split; [reflexivity|]. cbn. split; [reflexivity|]. split; [reflexivity|].
      split; [intros _; reflexivity|]. intros r _. reflexivity.
    + rewrite bool_decide_eq_false_2 by exact Hi.
      rewrite modify_k. unfold select. rewrite gets_k.
      erewrite modify_bg_run; [| exact H | exact Hg].
      eexists. split; [reflexivity|]. cbn. split; [reflexivity|]. split; [reflexivity|].
      split; [intros E; contradiction|]. intros r Hne. rewrite lookup_insert_ne by congruence. reflexivity.
Qed.

Lemma sampleDragWorld_live r :
  SelNode r ∈ selectedObjects sampleDragWorld -> liveNode sampleDragWorld r.
Proof.
  cbn. rewrite !elem_of_cons. intros [E|[E|E]].
  - injection E as ->. do 2 eexists. split; reflexivity.
  - injection E as ->. do 2 eexists. split; reflexivity.
  - apply not_elem_of_nil in E. contradiction.
Qed.



Lemma onDragEnd_plain_drop_witness :
  exists w', onDragEnd 1 sampleDragWorld = Some (tt, w') /\
    calls w' = [CCompleteDragStatesOperation (mkVec 73 124)].
Proof.
  destruct (onDragEnd_plain_drop sampleDragWorld 1 (sampleNode (mkVec 73 124) origin)
              (sampleGroup (mkVec 73 124)) eq_refl eq_refl eq_refl eq_refl sampleDragWorld_live)
    as (w' & R & Hc & _).
  exists w'. split; [exact R|]. rewrite Hc. reflexivity.
Defined.

Lemma onClick_selection_witness :
  exists w', onClick 1 (mkEv false 0 0 0 0) sampleDragWorld = Some (tt, w') /\
    selectedObjects w' = [SelNode 1] /\
    calls w' = [CDeselectAllObjects; CSelectObject (SelNode 1)].
Proof.
  destruct (proj1 (onClick_selection sampleDragWorld 1 (sampleNode (mkVec 73 124) origin)
              (sampleGroup (mkVec 73 124)) eq_refl eq_refl eq_refl sampleDragWorld_live)
              (mkEv false 0 0 0 0) eq_refl)
    as (w' & R & Hs & Hc & _).
  exists w'. split; [exact R|]. split; [exact Hs|]. rewrite Hc. reflexivity.
Defined.

(** In Transitions mode with a tentative transition in progress, hovering
    a node and leaving it again clears the tracked target and leaves the
    node's shadow disabled, with fill, stroke and position as before,
    nothing else touched and no collaborator called; in any other mode,
    or with no transition in progress, a mouse enter does nothing. *)
Theorem hover_enter_leave (w : World) (self : nat) :
  ((currentTool w <> Transitions \/ tentativeTransition w = None) ->
     onMouseEnter self w = Some (tt, w)) /\
  (forall (n : NodeWrapper) (g : Group) (t : TentativeTransition),
     currentTool w = Transitions -> tentativeTransition w = Some t ->
     nodes w !! self = Some n -> nodeGroup n = Some g ->
     exists w' n' g', (onMouseEnter self ;; onMouseLeave self) w = Some (tt, w') /\
       tentativeTransitionTarget w' = None /\
       tentativeTransition w' = tentativeTransition w /\
       calls w' = calls w /\ selectedObjects w' = selectedObjects w /\
       nodes w' !! self = Some n' /\ nodeGroup n' = Some g' /\
       bg_shadowEnabled (g_bg g') = false /\
       bg_fill (g_bg g') = bg_fill (g_bg g) /\
       bg_stroke (g_bg g') = bg_stroke (g_bg g) /\
       bg_strokeWidth (g_bg g') = bg_strokeWidth (g_bg g) /\
       g_pos g' = g_pos g /\
       (forall r, r <> self -> nodes w' !! r = nodes w !! r)).
Proof.
  split.
  - intros Hc. unfold onMouseEnter. rewrite !gets_k.
    unfold tentativeTransitionInProgress.
    destruct Hc as [Hc | Hc].
    + rewrite bool_decide_eq_false_2 by exact Hc. reflexivity.
    + rewrite Hc, andb_false_r. reflexivity.
  - intros n g t Ht Htt H Hg.
    assert (R1 : onMouseEnter self w = Some (tt,
              set_nodes (<[self := upd_group n (with_bg (bg_set_shadow
                  (newConnectionGlowColor (colorScheme w)) origin
                  (newConnectionShadowOpacity (colorScheme w))
                  (newConnectionShadowBlur (colorScheme w)) (g_bg g)) g)]>
                 (nodes w)) (set_target (Some self) w))).
    { unfold onMouseEnter. rewrite !gets_k. unfold tentativeTransitionInProgress.
      rewrite Ht, Htt, bool_decide_eq_true_2 by reflexivity. cbn [andb].
      rewrite modify_k. unfold enableNewConnectionGlow. rewrite gets_k.
      apply (modify_bg_run (set_target (Some self) w)); assumption. }
    rewrite (bind_ok _ _ _ _ _ R1). clear R1.
    unfold onMouseLeave, tentativeTransitionInProgress. rewrite !gets_k.
    cbn [tentativeTransition tentativeTransitionTarget currentTool set_nodes set_target].
    rewrite Ht, bool_decide_eq_true_2 by reflexivity.
    rewrite !gets_k.
    cbn [tentativeTransition tentativeTransitionTarget currentTool set_nodes set_target].
    rewrite Htt, bool_decide_eq_true_2 by reflexivity. cbn [andb].
    rewrite modify_k. unfold disableShadowEffects.
    erewrite modify_bg_run; [| apply lookup_insert_eq | reflexivity].
    do 3 eexists. split; [reflexivity|]. cbn.
    split; [reflexivity|]. split; [congruence|]. split; [reflexivity|]. split; [reflexivity|].
    split; [rewrite insert_insert_eq; apply lookup_insert_eq|].
    split; [reflexivity|].
    split; [reflexivity|]. split; [reflexivity|]. split; [reflexivity|]. split; [reflexivity|].
    split; [reflexivity|].
    intros r Hr. rewrite insert_insert_eq, lookup_insert_ne by congruence. reflexivity.
Qed.

Lemma hover_enter_leave_witness :
  exists w' n' g', (onMouseEnter 2 ;; onMouseLeave 2) (sampleHoverWorld None) = Some (tt, w') /\
    tentativeTransitionTarget w' = None /\
    nodes w' !! 2 = Some n' /\ nodeGroup n' = Some g' /\ bg_shadowEnabled (g_bg g') = false.
Proof.
  destruct (proj2 (hover_enter_leave (sampleHoverWorld None) 2)
              (sampleNode (mkVec 100 0) origin) (sampleGroup (mkVec 100 0)) (mkTentative 1 None)
              eq_refl eq_refl eq_refl eq_refl)
    as (w' & n' & g' & R & Ht & _ & _ & _ & Hn & Hg & Hs & _).
  exists w', n', g'. repeat split; assumption.
Defined.
